(** * empire-config: the configuration registry of [ecfg]

    A shallow embedding of [src/ecfg/library/configuration.py] and
    [src/ecfg/library/config_manager.py], and the properties of the
    registry (get / reload / close / save) proved over it.

    Modelling conventions.
    - A Python [str] and a Python [bytes] are both a [string], one [ascii]
      per character or byte. Characters above code point 127 are left alone
      by [lower] and are never whitespace; floating point numbers are not
      part of the value model.
    - [os.path] is the POSIX flavour ([posixpath]).
    - Objects live in a heap and are referred to by address, so that
      "the same instance" means "the same address".
    - [ConfigManager._instances] is an insertion-ordered dictionary, kept as
      an association list with Python's update-in-place / append behaviour.
    - Exceptions do not roll the state back: a computation yields a value or
      an exception, and in both cases the state it left behind. *)

From Stdlib Require Import Ascii.
From stdpp Require Import base option list strings gmap fin_maps.

#[local] Set Warnings "-register-all".

(** ** Strings: [str.lower], [str.strip], [os.path.join] *)

Module Str.

(** [str.lower] on one character: the 26 capital letters move down. *)
Definition lower_char (c : ascii) : ascii :=
  let n := nat_of_ascii c in
  if (65 <=? n)%nat && (n <=? 90)%nat then ascii_of_nat (n + 32) else c.


(** [str.isspace] on one character: TAB, LF, VT, FF, CR, FS, GS, RS, US
    and the space. *)
Definition isspace (c : ascii) : bool :=
  let n := nat_of_ascii c in
  ((9 <=? n)%nat && (n <=? 13)%nat) || ((28 <=? n)%nat && (n <=? 32)%nat).

Fixpoint lower (s : string) : string :=
  match s with
  | EmptyString => EmptyString
  | String c s' => String (lower_char c) (lower s')
  end.

Fixpoint lstrip (s : string) : string :=
  match s with
  | EmptyString => EmptyString
  | String c s' => if isspace c then lstrip s' else s
  end.

Fixpoint rstrip (s : string) : string :=
  match s with
  | EmptyString => EmptyString
  | String c s' =>
      match rstrip s' with
      | EmptyString => if isspace c then EmptyString else String c EmptyString
      | r => String c r
      end
  end.

(** [s.strip()] with no argument: whitespace goes from both ends. *)
Definition strip (s : string) : string := rstrip (lstrip s).

Definition startswith_sep (s : string) : bool :=
  match s with
  | String c _ => if decide (c = "/"%char) then true else false
  | EmptyString => false
  end.

Fixpoint endswith_sep (s : string) : bool :=
  match s with
  | EmptyString => false
  | String c EmptyString => if decide (c = "/"%char) then true else false
  | String _ s' => endswith_sep s'
  end.

(** One round of the loop of [posixpath.join]: an absolute component
    restarts the path, otherwise it is appended behind one separator. *)
Definition join_step (path b : string) : string :=
  if startswith_sep b then b
  else if decide (path = "") then path +:+ b
  else if endswith_sep path then path +:+ b
  else path +:+ "/" +:+ b.

Definition join (a : string) (p : list string) : string :=
  fold_left join_step p a.

Definition first_char (s : string) : option ascii :=
  match s with String c _ => Some c | EmptyString => None end.


End Str.

(** ** Python values and exceptions *)

(** The values [orjson.loads] can produce, which are also the values kept in
    configuration objects. A [dict] is its list of items in insertion
    order. *)
Inductive PyVal : Type :=
| PNone
| PBool (b : bool)
| PInt (z : Z)
| PStr (s : string)
| PList (l : list PyVal)
| PDict (d : list (PyVal * PyVal)).

Inductive Exn : Type :=
| ProgrammingException (msg : string)
| TypeError
| ValueError
| KeyError
| UnicodeDecodeError
| JSONDecodeError
| JSONEncodeError
| OSError.

(** A fallible pure computation: [inl] is the exception raised. *)
Definition exn_bind {A B} (x : Exn + A) (f : A -> Exn + B) : Exn + B :=
  match x with inl e => inl e | inr a => f a end.

Module PyDict.

Definition hashable (k : PyVal) : bool :=
  match k with PList _ | PDict _ => false | _ => true end.

(** [==] on hashable keys: [True == 1] and [False == 0]. *)
Definition key_eqb (a b : PyVal) : bool :=
  match a, b with
  | PNone, PNone => true
  | PBool x, PBool y => bool_decide (x = y)
  | PBool x, PInt y | PInt y, PBool x => bool_decide (y = if x then 1%Z else 0%Z)
  | PInt x, PInt y => bool_decide (x = y)
  | PStr x, PStr y => bool_decide (x = y)
  | _, _ => false
  end.


(** [d[k] = v]: an existing key keeps its place (and its key object), a
    new one goes last. *)
Fixpoint setitem (k v : PyVal) (d : list (PyVal * PyVal)) : list (PyVal * PyVal) :=
  match d with
  | [] => [(k, v)]
  | (k', v') :: d' => if key_eqb k' k then (k', v) :: d' else (k', v') :: setitem k v d'
  end.

(** What iterating over a value yields; [None] when it is not iterable. *)
Definition iterate (v : PyVal) : option (list PyVal) :=
  match v with
  | PList l => Some l
  | PStr s => Some (map (fun c => PStr (String c EmptyString)) (String.list_ascii_of_string s))
  | PDict d => Some (map fst d)
  | _ => None
  end.

(** One element of the sequence handed to [dict(...)]: it must itself be
    a sequence of exactly two elements, the first one hashable. *)
Definition update_from_pair (d : list (PyVal * PyVal)) (item : PyVal)
  : Exn + list (PyVal * PyVal) :=
  match iterate item with
  | None => inl TypeError
  | Some [k; v] => if hashable k then inr (setitem k v d) else inl TypeError
  | Some _ => inl ValueError
  end.

(** The builtin [dict(data)]: a mapping is copied, any other iterable is
    read as a sequence of key/value pairs. *)
Definition construct (data : PyVal) : Exn + list (PyVal * PyVal) :=
  match data with
  | PDict d => inr d
  | _ =>
      match iterate data with
      | None => inl TypeError
      | Some items =>
          fold_left (fun acc item => exn_bind acc (fun d => update_from_pair d item))
                    items (inr [])
      end
  end.

End PyDict.

(** ** [configuration.py]: the two kinds of configuration object *)

(** A field of a dataclass: its name and, when it has one, its default. *)
Record Field : Type := { fname : string; fdefault : option PyVal }.

(** A field as a dataclass may declare it: an ordinary field, which is a
    parameter of the generated [__init__], or a field declared with
    [field(default=value, init=False)], which [__init__] sets to its default
    and does not accept as an argument. *)
Inductive FieldDecl : Type :=
| InitField (f : Field)
| NoInitField (name : string) (value : PyVal).

(** A configuration class, the [Type[BaseConfiguration]] handed to the
    manager: [DictConfig], or a subclass of [DataclassConfiguration]
    decorated with [@dataclass], given by its name and its fields in
    declaration order. [DataclassConfiguration] is the class all of whose
    fields are ordinary; [DataclassWithOptions] is the class some of whose
    fields are kept out of [__init__]. The other options of the decorator
    are at their defaults. *)
Inductive ConfigType : Type :=
| DictConfig
| DataclassConfiguration (cname : string) (fields : list Field)
| DataclassWithOptions (cname : string) (decls : list FieldDecl).

(** An instance: the items of a [DictConfig], or the field values of a
    dataclass instance, in field order. *)
Inductive Obj : Type :=
| DictObj (items : list (PyVal * PyVal))
| DataObj (cname : string) (fields : list Field) (values : list PyVal)
| DeclObj (cname : string) (decls : list FieldDecl) (values : list PyVal).



Module Dataclass.

Fixpoint lookup_kw (k : string) (kw : list (string * PyVal)) : option PyVal :=
  match kw with
  | [] => None
  | (k', v) :: kw' => if decide (k' = k) then Some v else lookup_kw k kw'
  end.

(** The keys of a mapping unpacked into keywords must all be strings. *)
Fixpoint keywords (d : list (PyVal * PyVal)) : Exn + list (string * PyVal) :=
  match d with
  | [] => inr []
  | (PStr k, v) :: d' => exn_bind (keywords d') (fun kw => inr ((k, v) :: kw))
  | _ :: _ => inl TypeError
  end.

Definition is_field (fs : list Field) (k : string) : bool :=
  existsb (fun f => bool_decide (fname f = k)) fs.

(** The value a field receives: the keyword argument, else the default,
    else the call fails for a missing argument. *)
Definition bind_field (kw : list (string * PyVal)) (f : Field) : Exn + PyVal :=
  match lookup_kw (fname f) kw with
  | Some v => inr v
  | None => match fdefault f with Some v => inr v | None => inl TypeError end
  end.

Fixpoint bind_fields (kw : list (string * PyVal)) (fs : list Field) : Exn + list PyVal :=
  match fs with
  | [] => inr []
  | f :: fs' =>
      exn_bind (bind_field kw f) (fun v =>
      exn_bind (bind_fields kw fs') (fun vs => inr (v :: vs)))
  end.

(** The generated [__init__], called with keyword arguments only: an
    unexpected keyword is refused. *)
Definition init (fs : list Field) (kw : list (string * PyVal)) : Exn + list PyVal :=
  if forallb (fun kv => is_field fs (fst kv)) kw then bind_fields kw fs
  else inl TypeError.

(** [dataclasses.asdict] on a flat instance: field name to field value,
    in field order. *)
Definition asdict (fs : list Field) (vs : list PyVal) : list (PyVal * PyVal) :=
  zip_with (fun f v => (PStr (fname f), v)) fs vs.



Definition decl_name (d : FieldDecl) : string :=
  match d with InitField f => fname f | NoInitField name _ => name end.

(** The fields that are parameters of the generated [__init__]. *)
Fixpoint init_params (ds : list FieldDecl) : list Field :=
  match ds with
  | [] => []
  | InitField f :: ds' => f :: init_params ds'
  | NoInitField _ _ :: ds' => init_params ds'
  end.

(** The value a declared field receives: an ordinary field as before, a
    field kept out of [__init__] always its default. *)
Definition bind_decl (kw : list (string * PyVal)) (d : FieldDecl) : Exn + PyVal :=
  match d with
  | InitField f => bind_field kw f
  | NoInitField _ v => inr v
  end.

Fixpoint bind_decls (kw : list (string * PyVal)) (ds : list FieldDecl) : Exn + list PyVal :=
  match ds with
  | [] => inr []
  | d :: ds' =>
      exn_bind (bind_decl kw d) (fun v =>
      exn_bind (bind_decls kw ds') (fun vs => inr (v :: vs)))
  end.

(** The generated [__init__] of a class with fields kept out of it: only
    the names of its parameters are accepted as keywords. *)
Definition init_decls (ds : list FieldDecl) (kw : list (string * PyVal)) : Exn + list PyVal :=
  if forallb (fun kv => is_field (init_params ds) (fst kv)) kw then bind_decls kw ds
  else inl TypeError.

(** [dataclasses.asdict] goes over every field, parameter of [__init__] or
    not. *)
Definition asdict_decls (ds : list FieldDecl) (vs : list PyVal) : list (PyVal * PyVal) :=
  zip_with (fun d v => (PStr (decl_name d), v)) ds vs.




End Dataclass.

(** [config_type()]: construction without arguments. *)
Definition new (ty : ConfigType) : Exn + Obj :=
  match ty with
  | DictConfig => inr (DictObj [])
  | DataclassConfiguration n fs =>
      exn_bind (Dataclass.init fs []) (fun vs => inr (DataObj n fs vs))
  | DataclassWithOptions n ds =>
      exn_bind (Dataclass.init_decls ds []) (fun vs => inr (DeclObj n ds vs))
  end.

(** [to_json]: a [DictConfig] is its own serialized form, a dataclass goes
    through [asdict]. *)
Definition to_json (o : Obj) : PyVal :=
  match o with
  | DictObj items => PDict items
  | DataObj _ fs vs => PDict (Dataclass.asdict fs vs)
  | DeclObj _ ds vs => PDict (Dataclass.asdict_decls ds vs)
  end.

(** [from_json]: [cls(data)] for [DictConfig]; for a dataclass, [cls] called
    with [data] unpacked into keyword arguments, which wants a mapping. *)
Definition from_json (ty : ConfigType) (data : PyVal) : Exn + Obj :=
  match ty with
  | DictConfig => exn_bind (PyDict.construct data) (fun items => inr (DictObj items))
  | DataclassConfiguration n fs =>
      match data with
      | PDict d =>
          exn_bind (Dataclass.keywords d) (fun kw =>
          exn_bind (Dataclass.init fs kw) (fun vs => inr (DataObj n fs vs)))
      | _ => inl TypeError
      end
  | DataclassWithOptions n ds =>
      match data with
      | PDict d =>
          exn_bind (Dataclass.keywords d) (fun kw =>
          exn_bind (Dataclass.init_decls ds kw) (fun vs => inr (DeclObj n ds vs)))
      | _ => inl TypeError
      end
  end.

Definition Point : ConfigType :=
  DataclassConfiguration "Point"
    [ {| fname := "x"; fdefault := None |}; {| fname := "y"; fdefault := Some (PInt 0) |} ].



(** ** [config_manager.py]: state, environment and effects *)

(** The address of a configuration object. *)
Definition loc : Type := nat.

(** The frozen dataclass [_Configuration]. [path] is [None] when the caller
    gave no path to a configuration that is not serializable. *)
Record _Configuration : Type := {
  config : loc;
  is_encoded : bool;
  type_ : ConfigType;
  path : option string;
  serializable : bool
}.

(** What the manager takes from its surroundings: the home directory that
    [path.expanduser('~')] answers, [orjson], [base64], the UTF-8 codec
    behind [bytes.decode] and text-mode files, and which paths the
    operating system lets the process open. A [None] is the library's
    exception. *)
Record Platform : Type := {
  home : string;
  loads : string -> option PyVal;
  dumps : PyVal -> option string;
  b85encode : string -> string;
  b85decode : string -> option string;
  decode : string -> option string;
  encode : string -> string;
  can_read : string -> bool;
  can_write : string -> bool
}.

(** The mutable state: the class attribute [ConfigManager._instances], the
    objects, and the regular files on disk with their contents. *)
Record World : Type := {
  _instances : list (string * _Configuration);
  heap : list Obj;
  files : gmap string string
}.

Definition with_instances (f : list (string * _Configuration) -> list (string * _Configuration))
    (w : World) : World :=
  {| _instances := f (_instances w); heap := heap w; files := files w |}.

Definition with_heap (f : list Obj -> list Obj) (w : World) : World :=
  {| _instances := _instances w; heap := f (heap w); files := files w |}.

Definition with_files (f : gmap string string -> gmap string string) (w : World) : World :=
  {| _instances := _instances w; heap := heap w; files := f (files w) |}.

Inductive Result (A : Type) : Type :=
| Ok (a : A) (w : World)
| Raise (e : Exn) (w : World).
Arguments Ok {A} a w.
Arguments Raise {A} e w.

Definition M (A : Type) : Type := World -> Result A.

Definition ret {A} (a : A) : M A := fun w => Ok a w.

Definition bind {A B} (m : M A) (k : A -> M B) : M B :=
  fun w => match m w with Ok a w' => k a w' | Raise e w' => Raise e w' end.

Definition raise {A} (e : Exn) : M A := fun w => Raise e w.

Definition gets {A} (f : World -> A) : M A := fun w => Ok (f w) w.

Definition modify (f : World -> World) : M unit := fun w => Ok tt (f w).

Definition lift {A} (x : Exn + A) : M A :=
  match x with inl e => raise e | inr a => ret a end.

Definition or_raise {A} (e : Exn) (x : option A) : M A :=
  match x with Some a => ret a | None => raise e end.

Declare Scope py_scope.
Delimit Scope py_scope with py.
Notation "x <- m ;; k" := (bind m (fun x => k))
  (at level 100, m at next level, right associativity) : py_scope.
Notation "m ;; k" := (bind m (fun _ => k))
  (at level 100, right associativity) : py_scope.

Definition world_of {A} (r : Result A) : World :=
  match r with Ok _ w => w | Raise _ w => w end.

(** The dictionary [_instances], in insertion order. *)
Module Registry.

Fixpoint lookup (k : string) (d : list (string * _Configuration)) : option _Configuration :=
  match d with
  | [] => None
  | (k', c) :: d' => if decide (k' = k) then Some c else lookup k d'
  end.

(** [d[k] = c] *)
Fixpoint setitem (k : string) (c : _Configuration) (d : list (string * _Configuration))
  : list (string * _Configuration) :=
  match d with
  | [] => [(k, c)]
  | (k', c') :: d' =>
      if decide (k' = k) then (k', c) :: d' else (k', c') :: setitem k c d'
  end.

(** [del d[k]] *)
Fixpoint delitem (k : string) (d : list (string * _Configuration))
  : list (string * _Configuration) :=
  match d with
  | [] => []
  | (k', c') :: d' =>
      if decide (k' = k) then delitem k d' else (k', c') :: delitem k d'
  end.

(** [d.values()] *)
Definition values (d : list (string * _Configuration)) : list _Configuration :=
  map snd d.

End Registry.

(** Allocation of a new object, at an address not used before. *)
Definition alloc (o : Obj) : M loc :=
  fun w => Ok (length (heap w)) (with_heap (fun h => h ++ [o]) w).

(** The object behind an address. Addresses held by the registry are always
    allocated (the invariant [wf_world] below), so the fallback is never
    taken for them. *)
Definition deref (l : loc) : M Obj :=
  gets (fun w => default (DictObj []) (heap w !! l)).

Definition isfile (p : string) : M bool :=
  gets (fun w => bool_decide (is_Some (files w !! p))).

(** [open(p, 'rb')] or [open(p, 'r')] then [f.read()]: the bytes of the file. *)
Definition open_read (P : Platform) (p : string) : M string :=
  if can_read P p then
    fun w => match files w !! p with
             | Some content => Ok content w
             | None => Raise OSError w
             end
  else raise OSError.

(** [open(p, 'wb')] or [open(p, 'w')]: the file is created or truncated at
    once. A path that is [None] is refused by [open]. *)
Definition open_write (P : Platform) (p : option string) : M string :=
  match p with
  | None => raise TypeError
  | Some p =>
      if can_write P p
      then bind (modify (with_files (insert p EmptyString))) (fun _ => ret p)
      else raise OSError
  end.

Definition write (p : string) (content : string) : M unit :=
  modify (with_files (insert p content)).

(** ** [ConfigManager] *)

Section ConfigManager.

Variable P : Platform.

Local Open Scope py_scope.

(** [config_name.lower().strip()] *)
Definition get_effective_config_name (config_name : string) : string :=
  Str.strip (Str.lower config_name).

(** The file name [f'{config_name}.ecfg']. *)
Definition file_name (config_name : string) : string := config_name +:+ ".ecfg".

(** [not config_path]: [None] and the empty string are false. *)
Definition get_full_config_path (config_name : string) (config_path : option string) : string :=
  match config_path with
  | None | Some EmptyString => Str.join (home P) [".empire"; file_name config_name]
  | Some p => Str.join p [file_name config_name]
  end.

Definition set_instance (config_name : string) (c : _Configuration) : M unit :=
  modify (with_instances (Registry.setitem config_name c)).

(** [ConfigManager._instances[config_name].config] *)
Definition instance_config (config_name : string) : M loc :=
  c <- gets (fun w => Registry.lookup config_name (_instances w)) ;;
  match c with
  | Some c => ret (config c)
  | None => raise KeyError
  end.

Definition _load_config (config_name : string) (config_type : ConfigType)
    (config_path : option string) (is_encoded serializable : bool) : M loc :=
  (if negb serializable then
     o <- lift (new config_type) ;;
     l <- alloc o ;;
     set_instance config_name
       {| config := l; is_encoded := true; type_ := config_type;
          path := config_path; serializable := false |}
   else
     let config_path := get_full_config_path config_name config_path in
     exists_ <- isfile config_path ;;
     if exists_ : bool then
       if is_encoded then
         raw <- open_read P config_path ;;
         o0 <- lift (new config_type) ;;
         _ <- alloc o0 ;;
         bytes <- or_raise ValueError (b85decode P raw) ;;
         text <- or_raise UnicodeDecodeError (decode P bytes) ;;
         data <- or_raise JSONDecodeError (loads P text) ;;
         o <- lift (from_json config_type data) ;;
         l <- alloc o ;;
         set_instance config_name
           {| config := l; is_encoded := true; type_ := config_type;
              path := Some config_path; serializable := true |}
       else
         raw <- open_read P config_path ;;
         o0 <- lift (new config_type) ;;
         _ <- alloc o0 ;;
         text <- or_raise UnicodeDecodeError (decode P raw) ;;
         data <- or_raise JSONDecodeError (loads P text) ;;
         o <- lift (from_json config_type data) ;;
         l <- alloc o ;;
         set_instance config_name
           {| config := l; is_encoded := false; type_ := config_type;
              path := Some config_path; serializable := true |}
     else
       o <- lift (new config_type) ;;
       l <- alloc o ;;
       set_instance config_name
         {| config := l; is_encoded := is_encoded; type_ := config_type;
            path := Some config_path; serializable := true |}) ;;
  instance_config config_name.

Definition get_config (config_name : string) (config_type : ConfigType)
    (config_path : option string) (is_encoded serializable : bool) : M loc :=
  let config_name := get_effective_config_name config_name in
  c <- gets (fun w => Registry.lookup config_name (_instances w)) ;;
  match c with
  | Some c => ret (config c)
  | None => _load_config config_name config_type config_path is_encoded serializable
  end.

Definition dq : string := String (ascii_of_nat 34) EmptyString.

Definition not_loaded (config_name : string) : Exn :=
  ProgrammingException
    ("Configuration " +:+ config_name +:+ " is not loaded, cannot reload it. Use "
       +:+ dq +:+ "get_config()" +:+ dq +:+ " instead.").

Definition reload_config (config_name : string) : M loc :=
  let config_name := get_effective_config_name config_name in
  c <- gets (fun w => Registry.lookup config_name (_instances w)) ;;
  match c with
  | None => raise (not_loaded config_name)
  | Some current =>
      _load_config config_name (type_ current) (path current)
                   (is_encoded current) (serializable current)
  end.

Definition close_config_without_save (config_name : string) : M unit :=
  let config_name := get_effective_config_name config_name in
  c <- gets (fun w => Registry.lookup config_name (_instances w)) ;;
  match c with
  | Some _ => modify (with_instances (Registry.delitem config_name))
  | None => ret tt
  end.

Definition _save_config (c : _Configuration) : M unit :=
  if negb (serializable c) then ret tt
  else if is_encoded c then
    f <- open_write P (path c) ;;
    o <- deref (config c) ;;
    bytes <- or_raise JSONEncodeError (dumps P (to_json o)) ;;
    write f (b85encode P bytes)
  else
    f <- open_write P (path c) ;;
    o <- deref (config c) ;;
    bytes <- or_raise JSONEncodeError (dumps P (to_json o)) ;;
    text <- or_raise UnicodeDecodeError (decode P bytes) ;;
    write f (encode P text).

Fixpoint for_each {A} (body : A -> M unit) (l : list A) : M unit :=
  match l with
  | [] => ret tt
  | x :: l' => body x ;; for_each body l'
  end.

Definition save : M unit :=
  cs <- gets (fun w => Registry.values (_instances w)) ;;
  for_each _save_config cs.

End ConfigManager.

Definition empty_world : World := {| _instances := []; heap := []; files := ∅ |}.

(** ** Save-all, as the specification words it *)

(** The bytes that persist a record: the JSON text of the instance's
    [to_json], wrapped in base85 when the record is encoded. *)
Definition file_image (P : Platform) (h : list Obj) (c : _Configuration) : option string :=
  match dumps P (to_json (default (DictObj []) (h !! config c))) with
  | None => None
  | Some bytes =>
      if is_encoded c then Some (b85encode P bytes)
      else match decode P bytes with
           | None => None
           | Some text => Some (encode P text)
           end
  end.

(** One record of the iteration: a serializable record is persisted to its
    stored path, any other record is skipped. *)
Definition persist (P : Platform) (h : list Obj) (fs : gmap string string)
    (c : _Configuration) : gmap string string :=
  if serializable c then
    match path c, file_image P h c with
    | Some p, Some image => <[p := image]> fs
    | _, _ => fs
    end
  else fs.

(** The files after every registered record has been visited in turn. *)
Definition save_all_spec (P : Platform) (w : World) : gmap string string :=
  fold_left (persist P (heap w)) (Registry.values (_instances w)) (files w).

(** What a record needs for its save to go through: a path the process may
    open for writing and an instance the codecs accept. *)
Definition savable (P : Platform) (h : list Obj) (c : _Configuration) : Prop :=
  serializable c = true ->
  exists p, path c = Some p /\ can_write P p = true /\ is_Some (file_image P h c).

(** A registry with a plain file, an encoded file and an in-memory
    configuration, all three holding the same edited instance kind. *)
Definition mixed_world : World :=
  {| _instances :=
       [("x", {| config := 0; is_encoded := false; type_ := DictConfig;
                 path := Some "/tmp/x.ecfg"; serializable := true |});
        ("y", {| config := 1; is_encoded := true; type_ := DictConfig;
                 path := Some "/tmp"; serializable := false |});
        ("z", {| config := 2; is_encoded := true; type_ := DictConfig;
                 path := Some "/tmp/z.ecfg"; serializable := true |})];
     heap := [DictObj []; DictObj [(PStr "k", PInt 1)]; DictObj []];
     files := ∅ |}.

(** The reading side of a file: what [_load_config] decodes from the bytes
    of an existing file before it calls [from_json]. *)
Definition file_parse (P : Platform) (enc : bool) (content : string) : option PyVal :=
  if enc then
    match b85decode P content with
    | None => None
    | Some bytes =>
        match decode P bytes with None => None | Some text => loads P text end
    end
  else
    match decode P content with None => None | Some text => loads P text end.

(** The image the last serializable record stored at path [p] would write,
    if there is such a record. *)
Fixpoint last_image (P : Platform) (h : list Obj) (cs : list _Configuration) (p : string)
  : option string :=
  match cs with
  | [] => None
  | c :: cs' =>
      match last_image P h cs' p with
      | Some image => Some image
      | None =>
          if serializable c then
            match path c, file_image P h c with
            | Some q, Some image => if decide (q = p) then Some image else None
            | _, _ => None
            end
          else None
      end
  end.

(** The registered names are pairwise distinct and each is its own
    normalized form. *)
Definition keys_ok (w : World) : Prop :=
  NoDup (map fst (_instances w)) /\
  Forall (fun k => get_effective_config_name k = k) (map fst (_instances w)).

(** Every serializable record carries a path that was resolved for the name
    it is registered under, and every registered class can be built without
    arguments. *)
Definition records_ok (P : Platform) (w : World) : Prop :=
  Forall (fun kc =>
            (serializable (snd kc) = true ->
             exists dir, path (snd kc) = Some (get_full_config_path P (fst kc) dir)) /\
            (exists o, new (type_ (snd kc)) = inr o))
         (_instances w).

(** Every record of the registry refers to an allocated object. *)
Definition wf_world (w : World) : Prop :=
  Forall (fun kc => config (snd kc) < length (heap w)) (_instances w).

(** An environment for worked examples: every path may be opened, and the
    codecs are stand-ins for [orjson], [base64] and UTF-8 that are enough to
    run the manager ([loads] answers the empty object, [dumps] its text). *)
Definition example_platform : Platform :=
  {| home := "/home/u";
     loads := fun _ => Some (PDict []);
     dumps := fun _ => Some "{}";
     b85encode := fun s => "b85:" +:+ s;
     b85decode := fun s => Some s;
     decode := fun s => Some s;
     encode := fun s => s;
     can_read := fun _ => true;
     can_write := fun _ => true |}.

(** A less obliging environment for worked examples: [/tmp/z.ecfg] may not
    be opened for writing, and [dumps] refuses anything but the empty
    object. *)
Definition strict_platform : Platform :=
  {| home := "/home/u";
     loads := fun _ => Some (PDict []);
     dumps := fun v => match v with PDict [] => Some "{}" | _ => None end;
     b85encode := fun s => "b85:" +:+ s;
     b85decode := fun s => Some s;
     decode := fun s => Some s;
     encode := fun s => s;
     can_read := fun _ => true;
     can_write := fun p => negb (bool_decide (p = "/tmp/z.ecfg")) |}.

(** The text of a JSON object with one key, [k], bound to [1]. *)
Definition k1_text : string := "{" +:+ dq +:+ "k" +:+ dq +:+ ": 1}".

(** A disk with the plain file [/tmp/x.ecfg]. *)
Definition disk_world : World :=
  {| _instances := []; heap := []; files := {[ "/tmp/x.ecfg" := k1_text ]} |}.

(** The state once [get_config("x", DictConfig, "/tmp")] has loaded that
    file: the instance built by [from_json] is registered under [x] with the
    resolved path. *)
Definition loaded_world : World :=
  {| _instances :=
       [("x", {| config := 1; is_encoded := false; type_ := DictConfig;
                 path := Some "/tmp/x.ecfg"; serializable := true |})];
     heap := [DictObj []; DictObj [(PStr "k", PInt 1)]];
     files := {[ "/tmp/x.ecfg" := k1_text ]} |}.

(** A registry holding one configuration that lives in memory only, whose
    instance has been edited since it was created. *)
Definition in_memory_world : World :=
  {| _instances :=
       [("y", {| config := 0; is_encoded := true; type_ := DictConfig;
                 path := None; serializable := false |})];
     heap := [DictObj [(PStr "k", PInt 1)]];
     files := ∅ |}.

(** * Properties *)

(** ** Worked examples of the pure parts *)

Example lower_strip_MyApp : Str.strip (Str.lower "  MyApp ") = "myapp".
Proof. reflexivity. Qed.

Example join_home : Str.join "/home/u" [".empire"; "x.ecfg"] = "/home/u/.empire/x.ecfg".
Proof. reflexivity. Qed.

Example join_abs : Str.join "/tmp" ["/etc/x.ecfg"] = "/etc/x.ecfg".
Proof. reflexivity. Qed.

Example dict_of_pairs :
  PyDict.construct (PList [PList [PInt 1; PStr "a"]; PList [PBool true; PStr "b"]])
  = inr [(PInt 1, PStr "b")].
Proof. reflexivity. Qed.

Example dict_of_text : PyDict.construct (PStr "ab") = inl ValueError.
Proof. reflexivity. Qed.

Example Point_from_json :
  from_json Point (PDict [(PStr "x", PInt 3)])
  = inr (DataObj "Point"
           [ {| fname := "x"; fdefault := None |}; {| fname := "y"; fdefault := Some (PInt 0) |} ]
           [PInt 3; PInt 0]).
Proof. reflexivity. Qed.

Example Point_extra_key :
  from_json Point (PDict [(PStr "x", PInt 3); (PStr "z", PInt 1)]) = inl TypeError.
Proof. reflexivity. Qed.

Example Point_needs_x : new Point = inl TypeError.
Proof. reflexivity. Qed.


(** ** The registry as a dictionary *)

Module RegistryFacts.
Import Registry.

Lemma lookup_setitem_eq k c d : lookup k (setitem k c d) = Some c.
Proof.
  induction d as [|[k' c'] d IH]; simpl.
  - by rewrite decide_True.
  - destruct (decide (k' = k)) as [->|Hne]; simpl.
    + by rewrite decide_True.
    + by rewrite decide_False.
Qed.

Lemma lookup_setitem_ne k k' c d : k <> k' -> lookup k' (setitem k c d) = lookup k' d.
Proof.
  intros Hne. induction d as [|[k0 c0] d IH]; simpl.
  - by rewrite decide_False.
  - destruct (decide (k0 = k)) as [->|Hk]; simpl.
    + by rewrite !decide_False.
    + destruct (decide (k0 = k')); [done | apply IH].
Qed.

Lemma lookup_delitem_eq k d : lookup k (delitem k d) = None.
Proof.
  induction d as [|[k' c'] d IH]; simpl; [done|].
  destruct (decide (k' = k)); simpl; [done|]. by rewrite decide_False.
Qed.

Lemma lookup_delitem_ne k k' d : k <> k' -> lookup k' (delitem k d) = lookup k' d.
Proof.
  intros Hne. induction d as [|[k0 c0] d IH]; simpl; [done|].
  destruct (decide (k0 = k)) as [->|Hk]; simpl.
  - by rewrite decide_False.
  - by rewrite IH.
Qed.

Lemma delitem_absent k d : lookup k d = None -> delitem k d = d.
Proof.
  induction d as [|[k' c'] d IH]; simpl; [done|].
  destruct (decide (k' = k)); [done|]. intros H. by rewrite IH.
Qed.

(** Deleting a key keeps every other item, in order. *)
Lemma delitem_filter k d : delitem k d = List.filter (fun kc => negb (bool_decide (fst kc = k))) d.
Proof.
  induction d as [|[k' c'] d IH]; simpl; [done|].
  destruct (decide (k' = k)) as [->|Hk].
  - by rewrite bool_decide_eq_true_2.
  - rewrite bool_decide_eq_false_2 by done. simpl. by rewrite IH.
Qed.

(** Storing under a key keeps the keys and their order when the key is
    already there. *)
Lemma keys_setitem_present k c c0 d :
  lookup k d = Some c0 -> map fst (setitem k c d) = map fst d.
Proof.
  induction d as [|[k' c'] d IH]; simpl; [done|].
  destruct (decide (k' = k)) as [->|Hk]; simpl; [done|].
  intros H. by rewrite IH.
Qed.

End RegistryFacts.

(** Unfolds the effects of the manager's monad down to the state. *)
Ltac run :=
  cbv beta iota delta
    [bind ret raise gets modify lift or_raise set_instance instance_config alloc deref
     isfile write with_instances with_heap with_files world_of negb];
  cbn [_instances heap files].

Section ManagerFacts.

Variable P : Platform.

(** Loading stores a record under the name and answers its instance: the
    final read of [_instances[config_name]] cannot miss. *)
Lemma instance_config_after_set n c w :
  bind (set_instance n c) (fun _ => instance_config n) w
  = Ok (config c) (with_instances (Registry.setitem n c) w).
Proof.
  run. by rewrite RegistryFacts.lookup_setitem_eq.
Qed.

End ManagerFacts.

Lemma get_config_hit (P : Platform) config_name ty p enc ser w c :
  Registry.lookup (get_effective_config_name config_name) (_instances w) = Some c ->
  get_config P config_name ty p enc ser w = Ok (config c) w.
Proof.
  intros H. unfold get_config, bind, gets. by rewrite H.
Qed.

Lemma close_config_removes config_name w :
  exists w',
    close_config_without_save config_name w = Ok tt w' /\
    _instances w' = Registry.delitem (get_effective_config_name config_name) (_instances w) /\
    heap w' = heap w /\
    files w' = files w /\
    (Registry.lookup (get_effective_config_name config_name) (_instances w) = None -> w' = w).
Proof.
  unfold close_config_without_save, bind, gets.
  destruct (Registry.lookup _ (_instances w)) as [c|] eqn:Hl.
  - eexists; split; [reflexivity|]. simpl. repeat split; done.
  - exists w. split; [reflexivity|].
    split; [by rewrite RegistryFacts.delitem_absent|]. repeat split; done.
Qed.

(** C3. A name whose normalized form is registered: [get_config] answers the
    address of the instance held by the registry, whatever type, path,
    encoding and serializable flags the call gives, and leaves the registry,
    the objects and the files exactly as they were. *)
Theorem get_config_registered (P : Platform) (config_name : string) (ty : ConfigType)
    (p : option string) (enc ser : bool) (w : World) (c : _Configuration) :
  Registry.lookup (get_effective_config_name config_name) (_instances w) = Some c ->
  get_config P config_name ty p enc ser w = Ok (config c) w.
Proof. apply get_config_hit. Qed.

(** C6. A name whose normalized form is not registered: [reload_config]
    raises the "not loaded" exception and the state (registry, objects,
    files) is the one before the call. *)
Theorem reload_config_not_loaded (P : Platform) (config_name : string) (w : World) :
  Registry.lookup (get_effective_config_name config_name) (_instances w) = None ->
  reload_config P config_name w
  = Raise (not_loaded (get_effective_config_name config_name)) w.
Proof.
  intros H. unfold reload_config, bind, gets. by rewrite H.
Qed.

(** C9. [close_config_without_save] always returns; afterwards the
    normalized name is not registered, every other item of the registry is
    kept (in order), objects and files are untouched, and when the name was
    not registered the whole state is unchanged. *)
Theorem close_config_without_save_frame (config_name : string) (w : World) :
  exists w',
    close_config_without_save config_name w = Ok tt w' /\
    Registry.lookup (get_effective_config_name config_name) (_instances w') = None /\
    _instances w'
      = List.filter
          (fun kc => negb (bool_decide (fst kc = get_effective_config_name config_name)))
          (_instances w) /\
    (forall k, k <> get_effective_config_name config_name ->
               Registry.lookup k (_instances w') = Registry.lookup k (_instances w)) /\
    files w' = files w /\
    heap w' = heap w /\
    (Registry.lookup (get_effective_config_name config_name) (_instances w) = None -> w' = w).
Proof.
  destruct (close_config_removes config_name w) as (w' & Hrun & Hreg & Hheap & Hfiles & Hnoop).
  exists w'. rewrite Hreg.
  split; [done|].
  split; [apply RegistryFacts.lookup_delitem_eq|].
  split; [apply RegistryFacts.delitem_filter|].
  split; [intros k Hk; by apply RegistryFacts.lookup_delitem_ne|].
  repeat split; done.
Qed.

(** ** Inversion of the effects *)

Lemma bind_Ok_inv {A B} (m : M A) (k : A -> M B) w b w' :
  bind m k w = Ok b w' -> exists a w1, m w = Ok a w1 /\ k a w1 = Ok b w'.
Proof. unfold bind. destruct (m w) as [a w1|e w1]; [eauto | discriminate]. Qed.

Lemma or_raise_Ok_inv {A} e (x : option A) w a w' :
  or_raise e x w = Ok a w' -> x = Some a /\ w' = w.
Proof. destruct x; unfold or_raise, ret, raise; intros; simplify_eq; done. Qed.

Lemma lift_Ok_inv {A} (x : Exn + A) w a w' :
  lift x w = Ok a w' -> x = inr a /\ w' = w.
Proof. destruct x; unfold lift, ret, raise; intros; simplify_eq; done. Qed.

Lemma alloc_Ok_inv o w l w' :
  alloc o w = Ok l w' -> l = length (heap w) /\ w' = with_heap (fun h => h ++ [o]) w.
Proof. unfold alloc. intros; simplify_eq; done. Qed.

Lemma open_read_Ok_inv P p w s w' :
  open_read P p w = Ok s w' -> files w !! p = Some s /\ w' = w.
Proof.
  unfold open_read, raise. destruct (can_read P p); [|discriminate].
  destruct (files w !! p); intros; simplify_eq; done.
Qed.

Lemma set_instance_Ok_inv n c w u w' :
  set_instance n c w = Ok u w' -> w' = with_instances (Registry.setitem n c) w.
Proof. unfold set_instance, modify. intros; simplify_eq; done. Qed.

(** Takes a successful run apart, effect by effect. *)
Ltac invert_run H :=
  repeat
    (let a := fresh "a" in
     let w := fresh "w" in
     let H1 := fresh "Hstep" in
     apply bind_Ok_inv in H as (a & w & H1 & H);
     first [ apply or_raise_Ok_inv in H1 as [? ->]
           | apply lift_Ok_inv in H1 as [? ->]
           | apply alloc_Ok_inv in H1 as [? ->]
           | apply open_read_Ok_inv in H1 as [? ->]
           | apply set_instance_Ok_inv in H1 as -> ]);
  try apply set_instance_Ok_inv in H as ->.

(** ** What [_load_config] stores *)

Section LoadFacts.

Variable P : Platform.

(** The branch [if not serializable]: no file is looked at. *)
Lemma load_not_serializable n ty p enc w o :
  new ty = inr o ->
  _load_config P n ty p enc false w
  = Ok (length (heap w))
       {| _instances :=
            Registry.setitem n
              {| config := length (heap w); is_encoded := true; type_ := ty;
                 path := p; serializable := false |} (_instances w);
          heap := heap w ++ [o];
          files := files w |}.
Proof.
  intros Hnew. unfold _load_config. simpl negb. cbv iota.
  run. rewrite Hnew. run. by rewrite RegistryFacts.lookup_setitem_eq.
Qed.


(** The branch of a serializable configuration whose file is not there. *)
Lemma load_missing_file n ty p enc w o :
  files w !! get_full_config_path P n p = None ->
  new ty = inr o ->
  _load_config P n ty p enc true w
  = Ok (length (heap w))
       {| _instances :=
            Registry.setitem n
              {| config := length (heap w); is_encoded := enc; type_ := ty;
                 path := Some (get_full_config_path P n p); serializable := true |}
              (_instances w);
          heap := heap w ++ [o];
          files := files w |}.
Proof.
  intros Hfile Hnew. unfold _load_config. simpl negb. cbv iota.
  run. rewrite Hfile. rewrite bool_decide_eq_false_2 by (by intros [? ?]).
  rewrite Hnew. run. by rewrite RegistryFacts.lookup_setitem_eq.
Qed.


End LoadFacts.

(** C10. Reloading a registered configuration that is not serializable:
    provided its class can be built without arguments, the call returns the
    address of a new object, not allocated before, holding the default
    instance of the stored type; the registry entry now refers to it, the
    other entries and all files are as before. *)
Theorem reload_config_not_serializable (P : Platform) (config_name : string) (w : World)
    (c : _Configuration) (o : Obj) :
  Registry.lookup (get_effective_config_name config_name) (_instances w) = Some c ->
  serializable c = false ->
  new (type_ c) = inr o ->
  exists l w',
    reload_config P config_name w = Ok l w' /\
    heap w !! l = None /\
    heap w' = heap w ++ [o] /\
    heap w' !! l = Some o /\
    Registry.lookup (get_effective_config_name config_name) (_instances w')
      = Some {| config := l; is_encoded := true; type_ := type_ c;
                path := path c; serializable := false |} /\
    (forall k, k <> get_effective_config_name config_name ->
               Registry.lookup k (_instances w') = Registry.lookup k (_instances w)) /\
    files w' = files w.
Proof.
  intros Hl Hser Hnew.
  exists (length (heap w)). eexists. split.
  - unfold reload_config, bind at 1, gets. rewrite Hl, Hser.
    by apply load_not_serializable.
  - simpl. split; [by apply lookup_ge_None_2|].
    split; [done|].
    split; [by rewrite lookup_app_r, Nat.sub_diag|].
    split; [apply RegistryFacts.lookup_setitem_eq|].
    split; [|done].
    intros k Hk. by apply RegistryFacts.lookup_setitem_ne.
Qed.

Lemma reload_config_not_serializable_witness :
  exists l w',
    reload_config example_platform " Y" in_memory_world = Ok l w' /\
    heap in_memory_world !! l = None /\
    heap w' = heap in_memory_world ++ [DictObj []] /\
    heap w' !! l = Some (DictObj []) /\
    Registry.lookup "y" (_instances w')
      = Some {| config := l; is_encoded := true; type_ := DictConfig;
                path := None; serializable := false |} /\
    (forall k, k <> "y" ->
               Registry.lookup k (_instances w') = Registry.lookup k (_instances in_memory_world)) /\
    files w' = files in_memory_world.
Proof.
  apply (reload_config_not_serializable example_platform " Y" in_memory_world
           {| config := 0; is_encoded := true; type_ := DictConfig;
              path := None; serializable := false |} (DictObj []));
    reflexivity.
Defined.

Lemma get_config_registered_witness :
  get_config example_platform "  Y " Point (Some "/elsewhere") false true in_memory_world
  = Ok 0 in_memory_world.
Proof.
  apply (get_config_registered example_platform "  Y " Point (Some "/elsewhere") false true
           in_memory_world
           {| config := 0; is_encoded := true; type_ := DictConfig;
              path := None; serializable := false |}).
  reflexivity.
Defined.

Lemma reload_config_not_loaded_witness :
  reload_config example_platform "never-loaded" in_memory_world
  = Raise (not_loaded "never-loaded") in_memory_world.
Proof.
  apply (reload_config_not_loaded example_platform "never-loaded" in_memory_world).
  reflexivity.
Defined.

(** ** First load of a name *)

(** [get_config] on a name that is not registered with [serializable=False]:
    the record holds a default instance at a new address, keeps the path
    argument as given, is marked not serializable, and no file changes; its
    encoding flag is the constant [True] of the source, not the argument. *)
Lemma get_config_not_serializable (P : Platform) (config_name : string) (ty : ConfigType)
    (p : option string) (enc : bool) (w : World) (o : Obj) :
  Registry.lookup (get_effective_config_name config_name) (_instances w) = None ->
  new ty = inr o ->
  get_config P config_name ty p enc false w
  = Ok (length (heap w))
       {| _instances :=
            Registry.setitem (get_effective_config_name config_name)
              {| config := length (heap w); is_encoded := true; type_ := ty;
                 path := p; serializable := false |} (_instances w);
          heap := heap w ++ [o];
          files := files w |}.
Proof.
  intros Hl Hnew. unfold get_config, bind at 1, gets. rewrite Hl.
  by apply load_not_serializable.
Qed.

(** C2. The call [get_config("Y", DictConfig, "/tmp", is_encoded=False,
    serializable=False)] on an empty registry: the stored record is not
    serializable, holds an empty [DictConfig], keeps the path ["/tmp"] and
    no file is touched, but its [is_encoded] field is [True] although the
    caller passed [False]. *)
Theorem get_config_not_serializable_is_encoded (P : Platform) :
  get_config P "Y" DictConfig (Some "/tmp") false false empty_world
  = Ok 0
       {| _instances :=
            [("y", {| config := 0; is_encoded := true; type_ := DictConfig;
                      path := Some "/tmp"; serializable := false |})];
          heap := [DictObj []];
          files := ∅ |}.
Proof. reflexivity. Qed.

(** C4. [get_config] with [serializable=True] on a name that is not
    registered, when no file exists at the resolved path and the class can be
    built without arguments: the call returns, without an exception, the
    address of a new object holding the default instance; the record stored
    under the normalized name refers to it, with the resolved path and the
    caller's encoding flag; the files on disk are exactly those before the
    call, so in particular the resolved path still names no file. *)
Theorem get_config_missing_file (P : Platform) (config_name : string) (ty : ConfigType)
    (p : option string) (enc : bool) (w : World) (o : Obj) :
  Registry.lookup (get_effective_config_name config_name) (_instances w) = None ->
  files w !! get_full_config_path P (get_effective_config_name config_name) p = None ->
  new ty = inr o ->
  exists l w',
    get_config P config_name ty p enc true w = Ok l w' /\
    heap w !! l = None /\
    heap w' !! l = Some o /\
    heap w' = heap w ++ [o] /\
    Registry.lookup (get_effective_config_name config_name) (_instances w')
      = Some {| config := l; is_encoded := enc; type_ := ty;
                path := Some (get_full_config_path P (get_effective_config_name config_name) p);
                serializable := true |} /\
    files w' = files w /\
    files w' !! get_full_config_path P (get_effective_config_name config_name) p = None.
Proof.
  intros Hl Hfile Hnew.
  exists (length (heap w)). eexists. split.
  - unfold get_config, bind at 1, gets. rewrite Hl.
    by apply load_missing_file.
  - simpl. split; [by apply lookup_ge_None_2|].
    split; [by rewrite lookup_app_r, Nat.sub_diag|].
    split; [done|].
    split; [apply RegistryFacts.lookup_setitem_eq|].
    split; done.
Qed.

Lemma get_config_missing_file_witness :
  exists l w',
    get_config example_platform "NewName" DictConfig None false true empty_world = Ok l w' /\
    heap empty_world !! l = None /\
    heap w' !! l = Some (DictObj []) /\
    heap w' = heap empty_world ++ [DictObj []] /\
    Registry.lookup "newname" (_instances w')
      = Some {| config := l; is_encoded := false; type_ := DictConfig;
                path := Some "/home/u/.empire/newname.ecfg";
                serializable := true |} /\
    files w' = files empty_world /\
    files w' !! "/home/u/.empire/newname.ecfg" = None.
Proof.
  apply (get_config_missing_file example_platform "NewName" DictConfig None false
           empty_world (DictObj [])); reflexivity.
Defined.

(** C4, as first stated, fails for a class that needs arguments: [Point] has
    a field without default, so with no file at the resolved path and the
    name not registered, [get_config] raises [TypeError] and stores nothing. *)
Lemma get_config_missing_file_counterexample :
  Registry.lookup (get_effective_config_name "pt") (_instances empty_world) = None /\
  files empty_world !! get_full_config_path example_platform (get_effective_config_name "pt") None
    = None /\
  get_config example_platform "pt" Point None false true empty_world
  = Raise TypeError empty_world /\
  ~ (exists l w', get_config example_platform "pt" Point None false true empty_world = Ok l w').
Proof.
  split; [reflexivity|]. split; [reflexivity|]. split; [reflexivity|].
  intros (l & w' & H). discriminate H.
Qed.

(** ** Reload of a serializable configuration *)

Module StrFacts.

Lemma length_app (a b : string) : String.length (a +:+ b) = String.length a + String.length b.
Proof. induction a as [|c a IH]; simpl; [done|]. by rewrite IH. Qed.

(** Joining a relative component to a path that is not empty makes
    a strictly longer path. *)
Lemma join_relative_longer (p b : string) :
  p <> EmptyString -> Str.startswith_sep b = false -> b <> EmptyString ->
  String.length p < String.length (Str.join p [b]).
Proof.
  intros Hp Hb Hne. unfold Str.join, Str.join_step. simpl. rewrite Hb.
  rewrite decide_False by done.
  assert (0 < String.length b) by (destruct b; [done | simpl; lia]).
  destruct (Str.endswith_sep p); rewrite !length_app; simpl; lia.
Qed.

Lemma file_name_relative (n : string) :
  Str.startswith_sep n = false -> Str.startswith_sep (file_name n) = false.
Proof. destruct n; done. Qed.

Lemma file_name_not_empty (n : string) : file_name n <> EmptyString.
Proof. destruct n; done. Qed.

End StrFacts.

Section ReloadFacts.

Variable P : Platform.

(** Whenever the serializable branch of [_load_config] returns, the record
    it stored carries the path resolved from its path argument, and the
    files are untouched. *)
Lemma load_serializable_returns n ty p enc w l w' :
  _load_config P n ty p enc true w = Ok l w' ->
  exists c,
    Registry.lookup n (_instances w') = Some c /\
    config c = l /\
    type_ c = ty /\
    path c = Some (get_full_config_path P n p) /\
    serializable c = true /\
    files w' = files w.
Proof.
  unfold _load_config. simpl negb. cbv iota. intros H.
  apply bind_Ok_inv in H as (u & w1 & Hbranch & Hget).
  assert (exists c, _instances w1 = Registry.setitem n c (_instances w) /\
                    type_ c = ty /\
                    path c = Some (get_full_config_path P n p) /\
                    serializable c = true /\ files w1 = files w) as (c & Hreg & ? & ? & ? & ?).
  { apply bind_Ok_inv in Hbranch as (isf & w2 & Hisf & Hbranch).
    unfold isfile, gets in Hisf. simplify_eq.
    destruct (bool_decide _); [destruct enc|]; invert_run Hbranch;
      eexists; split; try reflexivity; simpl; done. }
  unfold instance_config, bind, gets in Hget. rewrite Hreg in Hget.
  rewrite RegistryFacts.lookup_setitem_eq in Hget. unfold ret in Hget. simplify_eq.
  exists c. rewrite Hreg. split; [apply RegistryFacts.lookup_setitem_eq|done].
Qed.

(** The path [reload_config] resolves is the stored path joined once more
    with the file name; for a name that does not start with the separator
    this is never the stored path. *)
Lemma reload_config_path config_name w c p l w' :
  Registry.lookup (get_effective_config_name config_name) (_instances w) = Some c ->
  serializable c = true ->
  path c = Some p ->
  p <> EmptyString ->
  Str.startswith_sep (get_effective_config_name config_name) = false ->
  reload_config P config_name w = Ok l w' ->
  exists c',
    Registry.lookup (get_effective_config_name config_name) (_instances w') = Some c' /\
    path c' = Some (Str.join p [file_name (get_effective_config_name config_name)]) /\
    path c' <> path c.
Proof.
  intros Hl Hser Hp Hne Hrel Hrun.
  unfold reload_config, bind at 1, gets in Hrun. rewrite Hl, Hser, Hp in Hrun.
  apply load_serializable_returns in Hrun as (c' & Hl' & _ & _ & Hp' & _ & _).
  exists c'. split; [done|].
  assert (get_full_config_path P (get_effective_config_name config_name) (Some p)
          = Str.join p [file_name (get_effective_config_name config_name)]) as Hfull
    by (destruct p; done).
  rewrite Hfull in Hp'. split; [done|].
  rewrite Hp', Hp. intros Heq.
  assert (Str.join p [file_name (get_effective_config_name config_name)] = p) as Heq'
    by congruence.
  pose proof (StrFacts.join_relative_longer p
                (file_name (get_effective_config_name config_name)) Hne
                (StrFacts.file_name_relative _ Hrel) (StrFacts.file_name_not_empty _)) as Hlen.
  rewrite Heq' in Hlen. lia.
Qed.

End ReloadFacts.

(** C1. With [x] registered from [/tmp/x.ecfg] (the path stored in its
    record) and that file on disk, [reload_config("x")] does not read it: it
    resolves the stored path once more, finds no file [/tmp/x.ecfg/x.ecfg],
    registers an empty default instance, and the new record's path is
    [/tmp/x.ecfg/x.ecfg], not the previous record's path. *)
Theorem reload_config_resolves_path_again (P : Platform) :
  Registry.lookup "x" (_instances loaded_world)
  = Some {| config := 1; is_encoded := false; type_ := DictConfig;
            path := Some "/tmp/x.ecfg"; serializable := true |} /\
  files loaded_world !! "/tmp/x.ecfg" = Some k1_text /\
  reload_config P "x" loaded_world
  = Ok 2
       {| _instances :=
            [("x", {| config := 2; is_encoded := false; type_ := DictConfig;
                      path := Some "/tmp/x.ecfg/x.ecfg"; serializable := true |})];
          heap := [DictObj []; DictObj [(PStr "k", PInt 1)]; DictObj []];
          files := files loaded_world |}.
Proof.
  split; [reflexivity|]. split; [reflexivity|].
  unfold reload_config, bind at 1, gets. simpl Registry.lookup.
  cbv beta iota. cbn [type_ path is_encoded serializable].
  apply (load_missing_file P "x" DictConfig (Some "/tmp/x.ecfg") false loaded_world (DictObj []));
    reflexivity.
Qed.

(** The state [loaded_world] is the one [get_config] builds from the disk
    with [/tmp/x.ecfg], when the codecs read its text as the object with
    [k] bound to [1]. *)
Lemma get_config_loads_file (P : Platform) :
  can_read P "/tmp/x.ecfg" = true ->
  decode P k1_text = Some k1_text ->
  loads P k1_text = Some (PDict [(PStr "k", PInt 1)]) ->
  get_config P "x" DictConfig (Some "/tmp") false true disk_world = Ok 1 loaded_world.
Proof.
  intros Hread Hdecode Hloads.
  vm_compute in Hread, Hdecode, Hloads.
  vm_compute. rewrite Hread.
  vm_compute. rewrite Hdecode.
  vm_compute. rewrite Hloads.
  reflexivity.
Qed.

(** ** Round trip of a dataclass configuration *)

Module DataclassFacts.
Import Dataclass.





End DataclassFacts.



(** ** Fields kept out of [__init__] *)

Module DeclFacts.
Import Dataclass.

Lemma keywords_asdict_decls ds vs :
  keywords (asdict_decls ds vs) = inr (zip_with (fun d v => (decl_name d, v)) ds vs).
Proof.
  revert vs. induction ds as [|d ds IH]; intros [|v vs]; simpl; try done.
  unfold asdict_decls in IH. by rewrite IH.
Qed.

Lemma is_field_names fs k : is_field fs k = true -> k ∈ map fname fs.
Proof.
  unfold is_field. rewrite existsb_exists. intros (f & Hin & Heq).
  apply bool_decide_eq_true_1 in Heq. apply list_elem_of_fmap.
  exists f. split; [done | by apply list_elem_of_In].
Qed.

Lemma init_params_names ds k : k ∈ map fname (init_params ds) -> k ∈ map decl_name ds.
Proof.
  induction ds as [|[f|name v] ds IH]; simpl; [done| |].
  - intros [->|Hin]%elem_of_cons; [left | right; by apply IH].
  - intros Hin. right. by apply IH.
Qed.

(** A field kept out of [__init__] is not among its parameters. *)
Lemma no_init_not_param ds name v :
  NoDup (map decl_name ds) -> NoInitField name v ∈ ds ->
  name ∉ map fname (init_params ds).
Proof.
  induction ds as [|d ds IH]; simpl; intros Hnd Hin.
  - by apply elem_of_nil in Hin.
  - apply NoDup_cons in Hnd as [Hfresh Hnd].
    apply elem_of_cons in Hin as [<-|Hin].
    + simpl in *. intros Hparam. by apply Hfresh, init_params_names.
    + destruct d as [f|name' v']; simpl in *; [|by apply IH].
      apply not_elem_of_cons. split; [|by apply IH].
      intros ->. apply Hfresh. apply list_elem_of_fmap. by exists (NoInitField (fname f) v).
Qed.

Lemma decl_among_keywords ds (vs : list PyVal) d :
  length vs = length ds -> d ∈ ds ->
  decl_name d ∈ map fst (zip_with (fun d v => (decl_name d, v)) ds vs).
Proof.
  revert vs. induction ds as [|d0 ds IH]; intros [|v vs] Hlen Hin; simpl in *;
    try done; try (by apply elem_of_nil in Hin).
  apply elem_of_cons in Hin as [->|Hin]; [left | right; apply IH; [lia | done]].
Qed.

(** [asdict] names every field, [__init__] refuses the name of a field
    kept out of it: the round trip of such a class always raises. *)
Lemma round_trip_refused n ds vs name v :
  NoDup (map decl_name ds) -> length vs = length ds ->
  NoInitField name v ∈ ds ->
  from_json (DataclassWithOptions n ds) (to_json (DeclObj n ds vs)) = inl TypeError.
Proof.
  intros Hnd Hlen Hin. simpl. rewrite keywords_asdict_decls. simpl.
  unfold init_decls.
  destruct (forallb _ _) eqn:Hall; [|done].
  exfalso. rewrite forallb_forall in Hall.
  pose proof (decl_among_keywords ds vs _ Hlen Hin) as Hkey.
  apply list_elem_of_fmap in Hkey as (kv & Hname & Hkv).
  apply list_elem_of_In, Hall in Hkv. rewrite <- Hname in Hkv. simpl in Hkv.
  apply is_field_names in Hkv.
  by apply (no_init_not_param ds name v Hnd Hin).
Qed.

(** A class all of whose declared fields are ordinary behaves as the class
    given by these fields. *)
Lemma init_decls_all_init fs kw : init_decls (map InitField fs) kw = init fs kw.
Proof.
  unfold init_decls, init.
  assert (init_params (map InitField fs) = fs) as ->
    by (induction fs as [|f fs IH]; simpl; [done | by rewrite IH]).
  destruct (forallb _ kw); [|done].
  induction fs as [|f fs IH]; simpl; [done|]. by rewrite IH.
Qed.

End DeclFacts.


(** ** Name normalization *)

Module NormFacts.
Import Str.






Lemma lstrip_first s :
  match first_char (lstrip s) with Some c => isspace c = false | None => True end.
Proof.
  induction s as [|c s IH]; simpl; [done|].
  destruct (isspace c) eqn:Hc; [done | simpl; done].
Qed.

Lemma rstrip_first s :
  first_char (rstrip s) = None \/ first_char (rstrip s) = first_char s.
Proof.
  destruct s as [|c s]; simpl; [by left|].
  destruct (rstrip s); [destruct (isspace c)|]; simpl; auto.
Qed.



End NormFacts.

Section NameFacts.

Variable P : Platform.

Lemma load_returns n ty p enc ser w l w' :
  _load_config P n ty p enc ser w = Ok l w' ->
  exists c, Registry.lookup n (_instances w') = Some c /\ config c = l.
Proof.
  destruct ser.
  - intros H. apply load_serializable_returns in H as (c & ? & ? & _). eauto.
  - unfold _load_config. simpl negb. cbv iota. intros H.
    apply bind_Ok_inv in H as (u & w1 & Hbranch & Hget).
    invert_run Hbranch.
    unfold instance_config, bind, gets, with_instances in Hget. simpl in Hget.
    rewrite RegistryFacts.lookup_setitem_eq in Hget. unfold ret in Hget. simplify_eq.
    eexists. split; [apply RegistryFacts.lookup_setitem_eq | done].
Qed.

(** After [get_config] has returned, the normalized name is registered and
    its record holds the address that was returned. *)
Lemma get_config_returns config_name ty p enc ser w l w' :
  get_config P config_name ty p enc ser w = Ok l w' ->
  exists c,
    Registry.lookup (get_effective_config_name config_name) (_instances w') = Some c /\
    config c = l.
Proof.
  unfold get_config, bind at 1, gets.
  destruct (Registry.lookup _ (_instances w)) as [c|] eqn:Hl.
  - unfold ret. intros; simplify_eq. eauto.
  - apply load_returns.
Qed.

End NameFacts.



(** ** Save-all *)

Ltac case_codec :=
  match goal with
  | |- context [dumps ?P ?x] => destruct (dumps P x) eqn:?
  | |- context [decode ?P ?x] => destruct (decode P x) eqn:?
  end.

Section SaveFacts.

Variable P : Platform.

(** Whatever the outcome of saving one record, the registry and the objects
    are kept, and so is every file other than the record's own. *)
Lemma save_config_frame c w :
  _instances (world_of (_save_config P c w)) = _instances w /\
  heap (world_of (_save_config P c w)) = heap w /\
  (forall p, (serializable c = true -> path c <> Some p) ->
             files (world_of (_save_config P c w)) !! p = files w !! p).
Proof.
  unfold _save_config, open_write.
  destruct (serializable c); simpl negb; cbv iota; [|by run].
  assert (forall q p content, (true = true -> Some q <> Some p) ->
            (<[q := content]> (files w) : gmap string string) !! p = files w !! p) as Hother.
  { intros q p content Hne. apply lookup_insert_ne. intros ->. by apply Hne. }
  destruct (is_encoded c), (path c) as [q|]; run; try done;
    destruct (can_write P q); run; try done;
    repeat (case_codec; run); try done;
    (split; [done|]; split; [done|]; intros p Hne;
     rewrite ?insert_insert_eq; by apply Hother).
Qed.

(** A save that goes through has written exactly what [persist] says, and
    the record was savable. *)
Lemma save_config_Ok_inv c w u w' :
  _save_config P c w = Ok u w' ->
  w' = with_files (fun fs => persist P (heap w) fs c) w /\ savable P (heap w) c.
Proof.
  unfold _save_config, open_write, persist, savable, file_image.
  destruct (serializable c); run.
  - destruct (is_encoded c), (path c) as [q|]; run; try discriminate;
      destruct (can_write P q) eqn:Hw; run; try discriminate;
      repeat (case_codec; run); try discriminate;
      intros; simplify_eq; rewrite insert_insert_eq; (split; [done|]);
      intros _; exists q; eauto.
  - intros [= <-]. split; [by destruct w | done].
Qed.

(** Conversely a savable record is saved without exception. *)
Lemma save_config_savable c w :
  savable P (heap w) c ->
  _save_config P c w = Ok tt (with_files (fun fs => persist P (heap w) fs c) w).
Proof.
  unfold _save_config, open_write, persist, savable, file_image.
  destruct (serializable c); run.
  - intros Hs. destruct (Hs eq_refl) as (q & Hq & Hw & [image Himage]).
    rewrite Hq, Hw. run. revert Himage.
    destruct (is_encoded c); repeat (case_codec; run); try discriminate;
      intros _; by rewrite insert_insert_eq.
  - intros _. by destruct w.
Qed.

End SaveFacts.

Section SaveAllFacts.

Variable P : Platform.

Lemma for_each_cons (c : _Configuration) cs w :
  for_each (_save_config P) (c :: cs) w
  = match _save_config P c w with
    | Ok _ w1 => for_each (_save_config P) cs w1
    | Raise e w1 => Raise e w1
    end.
Proof. reflexivity. Qed.

(** The loop of [save], whatever its outcome: registry and objects are
    kept, and a path that belongs to no serializable record keeps its file
    (or its absence). *)
Lemma for_each_save_frame cs w :
  _instances (world_of (for_each (_save_config P) cs w)) = _instances w /\
  heap (world_of (for_each (_save_config P) cs w)) = heap w /\
  (forall p, (forall c, c ∈ cs -> serializable c = true -> path c <> Some p) ->
             files (world_of (for_each (_save_config P) cs w)) !! p = files w !! p).
Proof.
  revert w. induction cs as [|c cs IH]; intros w; [done|].
  rewrite for_each_cons.
  destruct (save_config_frame P c w) as (Hreg & Hheap & Hfiles).
  destruct (_save_config P c w) as [u w1|e w1]; simpl in Hreg, Hheap, Hfiles.
  - destruct (IH w1) as (Hreg1 & Hheap1 & Hfiles1).
    split; [congruence|]. split; [congruence|].
    intros p Hp. rewrite Hfiles1, Hfiles; [done| |].
    + apply Hp. left.
    + intros c' Hc'. apply Hp. by right.
  - simpl. split; [done|]. split; [done|].
    intros p Hp. apply Hfiles, Hp. left.
Qed.

(** A loop that completes has visited every record, each one savable, and
    left the files that the record-by-record description gives. *)
Lemma for_each_save_Ok_inv cs w u w' :
  for_each (_save_config P) cs w = Ok u w' ->
  w' = with_files (fun fs => fold_left (persist P (heap w)) cs fs) w /\
  Forall (savable P (heap w)) cs.
Proof.
  revert w. induction cs as [|c cs IH]; intros w.
  - simpl. unfold ret. intros [= <-]. split; [by destruct w | done].
  - rewrite for_each_cons.
    destruct (_save_config P c w) as [u1 w1|e w1] eqn:Hc; [|discriminate].
    apply save_config_Ok_inv in Hc as [-> Hsav].
    intros Hrest. apply IH in Hrest as [-> Hall].
    split; [done|]. by constructor.
Qed.

Lemma for_each_save_savable cs w :
  Forall (savable P (heap w)) cs ->
  for_each (_save_config P) cs w
  = Ok tt (with_files (fun fs => fold_left (persist P (heap w)) cs fs) w).
Proof.
  revert w. induction cs as [|c cs IH]; intros w Hall.
  - by destruct w.
  - apply Forall_cons in Hall as [Hc Hall].
    rewrite for_each_cons, (save_config_savable P c w Hc).
    rewrite IH; done.
Qed.

(** The file of a serializable record that shares its path with no other
    serializable record holds that record's image at the end. *)
Lemma fold_persist_own_path h cs c p image :
  serializable c = true -> path c = Some p -> file_image P h c = Some image ->
  (forall c', c' ∈ cs -> serializable c' = true -> path c' = Some p -> c' = c) ->
  forall fs, c ∈ cs \/ fs !! p = Some image ->
  fold_left (persist P h) cs fs !! p = Some image.
Proof.
  intros Hser Hpath Himage.
  induction cs as [|c0 cs IH]; intros Huniq fs Hor.
  - destruct Hor as [Hin|Hfs]; [by apply elem_of_nil in Hin | done].
  - simpl. apply IH.
    + intros c' Hin. apply Huniq. by right.
    + unfold persist.
      destruct (serializable c0) eqn:Hser0.
      * destruct (path c0) as [p0|] eqn:Hp0.
        -- destruct (decide (p0 = p)) as [->|Hne].
           ++ rewrite (Huniq c0) in * by (done || left).
              rewrite Himage. right. apply lookup_insert_eq.
           ++ assert (c <> c0) as Hcc by (intros ->; congruence).
              destruct (file_image P h c0).
              ** destruct Hor as [Hin|Hfs].
                 --- apply elem_of_cons in Hin as [?|?]; [done | by left].
                 --- right. by rewrite lookup_insert_ne.
              ** destruct Hor as [Hin|Hfs]; [|by right].
                 apply elem_of_cons in Hin as [?|?]; [done | by left].
        -- assert (c <> c0) as Hcc by (intros ->; congruence).
           destruct Hor as [Hin|Hfs]; [|by right].
           apply elem_of_cons in Hin as [?|?]; [done | by left].
      * assert (c <> c0) as Hcc by (intros ->; congruence).
        destruct Hor as [Hin|Hfs]; [|by right].
        apply elem_of_cons in Hin as [?|?]; [done | by left].
Qed.

End SaveAllFacts.

(** C5. [save] visits every registered record in turn. Whatever its
    outcome, the registry and the objects are unchanged and a path that is
    not the stored path of a serializable record keeps its file, so a record
    that is not serializable causes no write. When every serializable record
    can be saved, [save] returns and the files are those of the
    record-by-record description [save_all_spec]; and whenever [save]
    returns, each serializable record has a stored path and an image (the
    JSON text of its instance, wrapped in base85 exactly when the record is
    encoded), which is the content of the file at that path when no other
    serializable record shares the path. *)
Theorem save_persists_serializable_records (P : Platform) (w : World) :
  _instances (world_of (save P w)) = _instances w /\
  heap (world_of (save P w)) = heap w /\
  (forall p,
      (forall c, c ∈ Registry.values (_instances w) ->
                 serializable c = true -> path c <> Some p) ->
      files (world_of (save P w)) !! p = files w !! p) /\
  (Forall (savable P (heap w)) (Registry.values (_instances w)) ->
   save P w
   = Ok tt {| _instances := _instances w; heap := heap w; files := save_all_spec P w |}) /\
  (forall u w',
      save P w = Ok u w' ->
      files w' = save_all_spec P w /\
      forall c, c ∈ Registry.values (_instances w) -> serializable c = true ->
        exists p bytes image,
          path c = Some p /\
          dumps P (to_json (default (DictObj []) (heap w !! config c))) = Some bytes /\
          file_image P (heap w) c = Some image /\
          (is_encoded c = true -> image = b85encode P bytes) /\
          (is_encoded c = false ->
           exists text, decode P bytes = Some text /\ image = encode P text) /\
          ((forall c', c' ∈ Registry.values (_instances w) ->
                       serializable c' = true -> path c' = Some p -> c' = c) ->
           files w' !! p = Some image)).
Proof.
  unfold save, bind at 1 2 3 4 5, gets. cbv beta iota.
  destruct (for_each_save_frame P (Registry.values (_instances w)) w) as (Hreg & Hheap & Hfiles).
  split; [done|]. split; [done|]. split; [done|]. split.
  - intros Hall. by rewrite for_each_save_savable.
  - intros u w' Hrun.
    apply for_each_save_Ok_inv in Hrun as [-> Hall].
    split; [done|].
    intros c Hin Hser.
    pose proof (proj1 (Forall_forall _ _) Hall c Hin Hser) as (p & Hp & _ & [image Himage]).
    pose proof Himage as Himage'. unfold file_image in Himage'.
    destruct (dumps P _) as [bytes|] eqn:Hdumps; [|discriminate].
    exists p, bytes, image.
    split; [done|]. split; [done|]. split; [done|].
    split; [intros Henc; rewrite Henc in Himage'; congruence|].
    split.
    + intros Henc. rewrite Henc in Himage'.
      destruct (decode P bytes) as [text|]; [|discriminate].
      exists text. split; [done | congruence].
    + intros Huniq. simpl.
      apply (fold_persist_own_path P (heap w) _ c p image); auto.
Qed.

(** [save] on a registry with a plain record, an in-memory record and an
    encoded record: two files appear, none for the in-memory record. *)
Example save_mixed_world :
  save example_platform mixed_world
  = Ok tt {| _instances := _instances mixed_world;
             heap := heap mixed_world;
             files := {[ "/tmp/x.ecfg" := "{}"; "/tmp/z.ecfg" := "b85:{}" ]} |}.
Proof. vm_compute. reflexivity. Qed.

(** ** Invariants of the registry *)

Ltac case_load :=
  match goal with
  | |- context [bool_decide ?x] => destruct (bool_decide x) eqn:?
  | |- context [can_read ?P ?x] => destruct (can_read P x) eqn:?
  | |- context [files ?w !! ?x] => destruct (files w !! x) eqn:?
  | |- context [new ?x] => destruct (new x) eqn:?
  | |- context [b85decode ?P ?x] => destruct (b85decode P x) eqn:?
  | |- context [decode ?P ?x] => destruct (decode P x) eqn:?
  | |- context [loads ?P ?x] => destruct (loads P x) eqn:?
  | |- context [from_json ?t ?x] => destruct (from_json t x) eqn:?
  end.

Section Invariants.

Variable P : Platform.

Lemma setitem_wf n c (d : list (string * _Configuration)) (h : list Obj) :
  config c < length h ->
  Forall (fun kc => config (snd kc) < length h) d ->
  Forall (fun kc => config (snd kc) < length h) (Registry.setitem n c d).
Proof.
  intros Hc. induction d as [|[k c'] d IH]; simpl; intros Hd.
  - by repeat constructor.
  - apply Forall_cons in Hd as [Hk Hd].
    destruct (decide (k = n)); constructor; auto.
Qed.

Lemma delitem_wf n (d : list (string * _Configuration)) (h : list Obj) :
  Forall (fun kc => config (snd kc) < length h) d ->
  Forall (fun kc => config (snd kc) < length h) (Registry.delitem n d).
Proof.
  induction d as [|[k c'] d IH]; simpl; intros Hd; [done|].
  apply Forall_cons in Hd as [Hk Hd].
  destruct (decide (k = n)); [|constructor]; auto.
Qed.

(** Loading, whatever its outcome: no file is created, changed or removed;
    objects are only added; and the registry is either untouched or has
    received one record, under the given name, for an allocated object. *)
Lemma load_config_effect n ty p enc ser w :
  files (world_of (_load_config P n ty p enc ser w)) = files w /\
  (exists extra, heap (world_of (_load_config P n ty p enc ser w)) = heap w ++ extra) /\
  (_instances (world_of (_load_config P n ty p enc ser w)) = _instances w \/
   exists c,
     _instances (world_of (_load_config P n ty p enc ser w))
       = Registry.setitem n c (_instances w) /\
     config c < length (heap (world_of (_load_config P n ty p enc ser w)))).
Proof.
  unfold _load_config, open_read.
  destruct ser; [destruct enc|]; run; repeat (case_load; run);
    rewrite ?RegistryFacts.lookup_setitem_eq; run;
    (split; [done|]);
    (split; [first [ exists []; by rewrite app_nil_r
                   | by eexists; rewrite <- ?app_assoc ]|]);
    first [ by left
          | right; eexists; split; [reflexivity|]; simpl; rewrite !length_app; simpl; lia ].
Qed.

Lemma load_config_wf n ty p enc ser w :
  wf_world w -> wf_world (world_of (_load_config P n ty p enc ser w)).
Proof.
  intros Hwf.
  destruct (load_config_effect n ty p enc ser w) as (_ & [extra Hheap] & Hreg).
  unfold wf_world in *.
  assert (Forall (fun kc => config (snd kc)
                            < length (heap (world_of (_load_config P n ty p enc ser w))))
                 (_instances w)) as Hold.
  { rewrite Hheap, length_app. eapply Forall_impl; [exact Hwf|]. simpl. intros; lia. }
  destruct Hreg as [-> | (c & -> & Hc)]; [done|]. by apply setitem_wf.
Qed.

(** The four operations keep the invariant, and [get_config] and
    [reload_config] never touch a file. *)
Lemma get_config_effect config_name ty p enc ser w :
  files (world_of (get_config P config_name ty p enc ser w)) = files w /\
  (wf_world w -> wf_world (world_of (get_config P config_name ty p enc ser w))).
Proof.
  unfold get_config, bind at 1 2, gets. cbv beta iota.
  destruct (Registry.lookup _ (_instances w)); [done|].
  split; [apply load_config_effect | apply load_config_wf].
Qed.

Lemma reload_config_effect config_name w :
  files (world_of (reload_config P config_name w)) = files w /\
  (wf_world w -> wf_world (world_of (reload_config P config_name w))).
Proof.
  unfold reload_config, bind at 1 2, gets. cbv beta iota.
  destruct (Registry.lookup _ (_instances w)); [|done].
  split; [apply load_config_effect | apply load_config_wf].
Qed.

Lemma close_config_wf config_name w :
  wf_world w -> wf_world (world_of (close_config_without_save config_name w)).
Proof.
  intros Hwf.
  destruct (close_config_removes config_name w) as (w' & -> & Hreg & Hheap & _).
  unfold wf_world. simpl. rewrite Hreg, Hheap. by apply delitem_wf.
Qed.

Lemma save_wf w : wf_world w -> wf_world (world_of (save P w)).
Proof.
  intros Hwf. unfold save, bind, gets.
  destruct (for_each_save_frame P (Registry.values (_instances w)) w) as (Hreg & Hheap & _).
  destruct (for_each _ _ w); simpl in *; unfold wf_world; by rewrite Hreg, Hheap.
Qed.

Lemma empty_world_wf : wf_world empty_world.
Proof. constructor. Qed.

End Invariants.

(** * Further properties of the code *)

(** ** Names and paths *)

Module NameShape.
Import Str.

Lemma isspace_lower_char c : isspace (lower_char c) = isspace c.
Proof. destruct c as [[] [] [] [] [] [] [] []]; reflexivity. Qed.

Lemma lower_char_idem c : lower_char (lower_char c) = lower_char c.
Proof. destruct c as [[] [] [] [] [] [] [] []]; reflexivity. Qed.

Lemma lower_idem s : lower (lower s) = lower s.
Proof. induction s as [|c s IH]; simpl; [done|]. by rewrite lower_char_idem, IH. Qed.

Lemma lower_lstrip s : lower (lstrip s) = lstrip (lower s).
Proof.
  induction s as [|c s IH]; simpl; [done|].
  rewrite isspace_lower_char. by destruct (isspace c).
Qed.

Lemma lower_rstrip s : lower (rstrip s) = rstrip (lower s).
Proof.
  induction s as [|c s IH]; simpl; [done|].
  rewrite <- IH, isspace_lower_char.
  destruct (rstrip s); simpl; [by destruct (isspace c) | done].
Qed.

Lemma rstrip_idem s : rstrip (rstrip s) = rstrip s.
Proof.
  induction s as [|c s IH]; simpl; [done|].
  destruct (rstrip s) as [|c' r] eqn:Hr.
  - destruct (isspace c) eqn:Hc; simpl; [done|]. by rewrite Hc.
  - change (rstrip (String c (String c' r))) with
      (match rstrip (String c' r) with
       | EmptyString => if isspace c then EmptyString else String c EmptyString
       | r0 => String c r0
       end).
    by rewrite IH.
Qed.

Lemma lstrip_fixed s :
  match first_char s with Some c => isspace c = false | None => True end -> lstrip s = s.
Proof. destruct s as [|c s]; simpl; [done|]. by intros ->. Qed.

Lemma strip_idem s : strip (strip s) = strip s.
Proof.
  unfold strip. rewrite (lstrip_fixed (rstrip (lstrip s))); [apply rstrip_idem|].
  destruct (NormFacts.rstrip_first (lstrip s)) as [->| ->]; [done|].
  apply NormFacts.lstrip_first.
Qed.

Lemma append_assoc (a b c : string) : (a +:+ b) +:+ c = a +:+ b +:+ c.
Proof. induction a as [|x a IH]; [done|]. exact (f_equal (String x) IH). Qed.

(** One round of [join] either restarts at the component or appends it. *)
Lemma join_step_suffix path b : exists prefix, join_step path b = prefix +:+ b.
Proof.
  unfold join_step. destruct (startswith_sep b); [by exists EmptyString|].
  destruct (decide (path = EmptyString)); [by exists path|].
  destruct (endswith_sep path); [by exists path|].
  exists (path +:+ "/"). symmetry. apply append_assoc.
Qed.

End NameShape.

Lemma get_effective_config_name_idempotent_aux (config_name : string) :
  get_effective_config_name (get_effective_config_name config_name)
  = get_effective_config_name config_name.
Proof.
  unfold get_effective_config_name, Str.strip.
  rewrite NameShape.lower_rstrip, NameShape.lower_lstrip, NameShape.lower_idem.
  apply (NameShape.strip_idem (Str.lower config_name)).
Qed.

(** X1. Normalizing a name twice is the same as normalizing it once: a
    registered key is its own normalized form. *)
Theorem get_effective_config_name_idempotent (config_name : string) :
  get_effective_config_name (get_effective_config_name config_name)
  = get_effective_config_name config_name.
Proof.
  unfold get_effective_config_name, Str.strip.
  rewrite NameShape.lower_rstrip, NameShape.lower_lstrip, NameShape.lower_idem.
  apply (NameShape.strip_idem (Str.lower config_name)).
Qed.

Lemma full_path_suffix (P : Platform) (config_name : string) (config_path : option string) :
  exists prefix, get_full_config_path P config_name config_path = prefix +:+ file_name config_name.
Proof.
  unfold get_full_config_path, Str.join.
  destruct config_path as [[|c dir]|]; simpl; apply NameShape.join_step_suffix.
Qed.

(** X2. Whatever the directory argument, the resolved path ends with the
    file name [<config_name>.ecfg]. *)
Theorem get_full_config_path_ends_with_file_name (P : Platform) (config_name : string)
    (config_path : option string) :
  exists prefix, get_full_config_path P config_name config_path = prefix +:+ file_name config_name.
Proof.
  unfold get_full_config_path, Str.join.
  destruct config_path as [[|c dir]|]; simpl; apply NameShape.join_step_suffix.
Qed.

(** X3. A name that starts with the separator makes an absolute file name,
    and [path.join] then drops the directory: neither [config_path] nor the
    home directory takes part in the resolved path. *)
Theorem get_full_config_path_absolute_name (P : Platform) (config_name : string)
    (config_path : option string) :
  Str.startswith_sep config_name = true ->
  get_full_config_path P config_name config_path = file_name config_name.
Proof.
  intros Habs.
  assert (Str.startswith_sep (file_name config_name) = true) as Hfile
    by (destruct config_name; done).
  unfold get_full_config_path, Str.join.
  destruct config_path as [[|c dir]|]; simpl; unfold Str.join_step at 1; by rewrite Hfile.
Qed.

Lemma get_full_config_path_absolute_name_witness :
  get_full_config_path example_platform "/etc/app" (Some "/tmp") = "/etc/app.ecfg".
Proof.
  apply (get_full_config_path_absolute_name example_platform "/etc/app" (Some "/tmp")).
  reflexivity.
Defined.

(** ** [DataclassConfiguration.from_json] *)

Module FromJsonFacts.
Import Dataclass.












End FromJsonFacts.




(** ** Outcomes of loading *)

Section LoadOutcome.

Variable P : Platform.

(** Both outcomes of [_load_config] at once. When it returns, one record
    has been stored under the name, for a new object of a class that can be
    built without arguments; when it raises, the registry is untouched. *)
Lemma load_config_outcome n ty p enc ser w :
  match _load_config P n ty p enc ser w with
  | Ok l w' =>
      exists c,
        _instances w' = Registry.setitem n c (_instances w) /\
        config c = l /\ type_ c = ty /\ serializable c = ser /\
        (ser = true -> path c = Some (get_full_config_path P n p)) /\
        (exists o, new ty = inr o) /\
        length (heap w) <= l < length (heap w')
  | Raise e w' => _instances w' = _instances w
  end.
Proof.
  unfold _load_config, open_read.
  destruct ser; [destruct enc|]; run; repeat (case_load; run);
    rewrite ?RegistryFacts.lookup_setitem_eq; run; try done;
    (eexists; split; [reflexivity|]; simpl;
     repeat (split; [first [done | by eauto]|]);
     rewrite !length_app; simpl; lia).
Qed.

Lemma get_config_outcome config_name ty p enc ser w :
  Registry.lookup (get_effective_config_name config_name) (_instances w) = None ->
  get_config P config_name ty p enc ser w
  = _load_config P (get_effective_config_name config_name) ty p enc ser w.
Proof. intros H. unfold get_config, bind, gets. by rewrite H. Qed.

Lemma reload_config_outcome config_name w c :
  Registry.lookup (get_effective_config_name config_name) (_instances w) = Some c ->
  reload_config P config_name w
  = _load_config P (get_effective_config_name config_name) (type_ c) (path c)
      (is_encoded c) (serializable c) w.
Proof. intros H. unfold reload_config, bind, gets. by rewrite H. Qed.

End LoadOutcome.

(** X6. A [get_config] that raises (a class that needs arguments, an
    unreadable or malformed file, data the class refuses) registers nothing:
    the registry and the files are those before the call. *)
Theorem get_config_raise_registers_nothing (P : Platform) (config_name : string)
    (ty : ConfigType) (p : option string) (enc ser : bool) (w : World) (e : Exn) (w' : World) :
  get_config P config_name ty p enc ser w = Raise e w' ->
  _instances w' = _instances w /\ files w' = files w.
Proof.
  intros Hrun.
  destruct (Registry.lookup (get_effective_config_name config_name) (_instances w)) as [c|] eqn:Hl.
  - by rewrite (get_config_hit P _ ty p enc ser w c Hl) in Hrun.
  - rewrite (get_config_outcome P _ ty p enc ser w Hl) in Hrun.
    pose proof (load_config_outcome P (get_effective_config_name config_name) ty p enc ser w) as Hout.
    pose proof (load_config_effect P (get_effective_config_name config_name) ty p enc ser w)
      as (Hfiles & _).
    rewrite Hrun in Hout, Hfiles. done.
Qed.

Lemma get_config_raise_registers_nothing_witness :
  _instances in_memory_world = _instances in_memory_world /\
  files in_memory_world = files in_memory_world.
Proof.
  apply (get_config_raise_registers_nothing example_platform "pt" Point None false true
           in_memory_world TypeError in_memory_world).
  reflexivity.
Defined.

(** X7. A [reload_config] that raises keeps the registry as it was: a
    configuration whose reload fails is still registered with its previous
    record and instance, and no file has changed. *)
Theorem reload_config_raise_keeps_record (P : Platform) (config_name : string)
    (w : World) (e : Exn) (w' : World) :
  reload_config P config_name w = Raise e w' ->
  _instances w' = _instances w /\ files w' = files w /\
  (forall l, l < length (heap w) -> heap w' !! l = heap w !! l).
Proof.
  intros Hrun.
  destruct (Registry.lookup (get_effective_config_name config_name) (_instances w)) as [c|] eqn:Hl.
  - rewrite (reload_config_outcome P _ w c Hl) in Hrun.
    pose proof (load_config_outcome P (get_effective_config_name config_name) (type_ c)
                  (path c) (is_encoded c) (serializable c) w) as Hout.
    pose proof (load_config_effect P (get_effective_config_name config_name) (type_ c)
                  (path c) (is_encoded c) (serializable c) w) as (Hfiles & [extra Hheap] & _).
    rewrite Hrun in Hout, Hfiles, Hheap. simpl in *.
    split; [done|]. split; [done|].
    intros l Hlt. by rewrite Hheap, lookup_app_l.
  - unfold reload_config, bind, gets in Hrun. rewrite Hl in Hrun.
    unfold raise in Hrun. by simplify_eq.
Qed.

Lemma reload_config_raise_keeps_record_witness :
  _instances in_memory_world = _instances in_memory_world /\
  files in_memory_world = files in_memory_world /\
  (forall l, l < length (heap in_memory_world) ->
             heap in_memory_world !! l = heap in_memory_world !! l).
Proof.
  apply (reload_config_raise_keeps_record example_platform "absent" in_memory_world
           (not_loaded "absent") in_memory_world).
  reflexivity.
Defined.

(** X8. [get_config] and [reload_config], whatever their outcome, never
    create, change or remove a file, never change an object that existed
    before the call, and leave the record of every other name as it was. *)
Theorem loading_frame (P : Platform) (config_name : string) (w : World) :
  (forall ty p enc ser,
      files (world_of (get_config P config_name ty p enc ser w)) = files w /\
      (forall l, l < length (heap w) ->
                 heap (world_of (get_config P config_name ty p enc ser w)) !! l = heap w !! l) /\
      (forall k, k <> get_effective_config_name config_name ->
                 Registry.lookup k (_instances (world_of (get_config P config_name ty p enc ser w)))
                 = Registry.lookup k (_instances w))) /\
  files (world_of (reload_config P config_name w)) = files w /\
  (forall l, l < length (heap w) ->
             heap (world_of (reload_config P config_name w)) !! l = heap w !! l) /\
  (forall k, k <> get_effective_config_name config_name ->
             Registry.lookup k (_instances (world_of (reload_config P config_name w)))
             = Registry.lookup k (_instances w)).
Proof.
  assert (forall ty p enc ser,
    files (world_of (_load_config P (get_effective_config_name config_name) ty p enc ser w))
    = files w /\
    (forall l, l < length (heap w) ->
       heap (world_of (_load_config P (get_effective_config_name config_name) ty p enc ser w)) !! l
       = heap w !! l) /\
    (forall k, k <> get_effective_config_name config_name ->
       Registry.lookup k
         (_instances (world_of (_load_config P (get_effective_config_name config_name)
                                  ty p enc ser w)))
       = Registry.lookup k (_instances w))) as Hload.
  { intros ty p enc ser.
    destruct (load_config_effect P (get_effective_config_name config_name) ty p enc ser w)
      as (Hfiles & [extra Hheap] & Hreg).
    split; [done|]. split.
    - intros l Hlt. by rewrite Hheap, lookup_app_l.
    - intros k Hk. destruct Hreg as [-> | (c & -> & _)]; [done|].
      by apply RegistryFacts.lookup_setitem_ne. }
  destruct (Registry.lookup (get_effective_config_name config_name) (_instances w)) as [c|] eqn:Hl.
  - split.
    + intros ty p enc ser. by rewrite (get_config_hit P _ ty p enc ser w c Hl).
    + rewrite (reload_config_outcome P _ w c Hl). apply Hload.
  - split.
    + intros ty p enc ser. rewrite (get_config_outcome P _ ty p enc ser w Hl). apply Hload.
    + unfold reload_config, bind, gets. rewrite Hl. done.
Qed.

(** ** The registered names *)

Module KeyFacts.
Import Registry.

Lemma lookup_None_keys k (d : list (string * _Configuration)) :
  lookup k d = None <-> k ∉ map fst d.
Proof.
  induction d as [|[k' c] d IH]; simpl.
  - split; [intros _ ?%elem_of_nil; done | done].
  - destruct (decide (k' = k)) as [->|Hne].
    + split; [done | intros H; exfalso; apply H; left].
    + rewrite IH, not_elem_of_cons. split; [intros H; split; [congruence | done] | by intros [_ ?]].
Qed.

(** Assignment keeps the names and their order, or adds the new name last. *)
Lemma keys_setitem k c (d : list (string * _Configuration)) :
  map fst (setitem k c d)
  = match lookup k d with Some _ => map fst d | None => map fst d ++ [k] end.
Proof.
  induction d as [|[k' c'] d IH]; simpl; [done|].
  destruct (decide (k' = k)) as [->|Hne]; simpl; [done|].
  rewrite IH. by destruct (lookup k d).
Qed.

Lemma keys_delitem k (d : list (string * _Configuration)) :
  map fst (delitem k d) = List.filter (fun k' => negb (bool_decide (k' = k))) (map fst d).
Proof.
  induction d as [|[k' c'] d IH]; simpl; [done|].
  destruct (decide (k' = k)) as [->|Hne].
  - by rewrite bool_decide_eq_true_2.
  - rewrite bool_decide_eq_false_2 by done. simpl. by rewrite IH.
Qed.

Lemma keys_ok_setitem k c (d : list (string * _Configuration)) :
  get_effective_config_name k = k ->
  NoDup (map fst d) /\ Forall (fun k => get_effective_config_name k = k) (map fst d) ->
  NoDup (map fst (setitem k c d)) /\
  Forall (fun k => get_effective_config_name k = k) (map fst (setitem k c d)).
Proof.
  intros Hk [Hnd Hnorm]. rewrite keys_setitem.
  destruct (lookup k d) eqn:Hl; [done|].
  apply lookup_None_keys in Hl. split.
  - apply NoDup_app. split; [done|]. split; [|apply NoDup_singleton].
    intros x Hx ->%list_elem_of_singleton. done.
  - apply Forall_app. split; [done|]. by repeat constructor.
Qed.

Lemma keys_ok_delitem k (d : list (string * _Configuration)) :
  NoDup (map fst d) /\ Forall (fun k => get_effective_config_name k = k) (map fst d) ->
  NoDup (map fst (delitem k d)) /\
  Forall (fun k => get_effective_config_name k = k) (map fst (delitem k d)).
Proof.
  intros [Hnd Hnorm]. rewrite keys_delitem. split.
  - apply NoDup_ListNoDup, List.NoDup_filter, NoDup_ListNoDup, Hnd.
  - apply Forall_forall. intros x Hx.
    apply list_elem_of_In, List.filter_In in Hx as [Hx _].
    by apply (proj1 (Forall_forall _ _) Hnorm), list_elem_of_In.
Qed.

End KeyFacts.

(** X9. The registered names stay pairwise distinct and in normalized form
    through [get_config], [reload_config], [close_config_without_save] and
    [save], whatever their outcome. *)
Theorem keys_ok_preserved (P : Platform) (w : World) :
  keys_ok w ->
  (forall config_name ty p enc ser,
      keys_ok (world_of (get_config P config_name ty p enc ser w))) /\
  (forall config_name, keys_ok (world_of (reload_config P config_name w))) /\
  (forall config_name, keys_ok (world_of (close_config_without_save config_name w))) /\
  keys_ok (world_of (save P w)).
Proof.
  intros Hok.
  assert (forall n ty p enc ser,
             get_effective_config_name n = n ->
             keys_ok (world_of (_load_config P n ty p enc ser w))) as Hload.
  { intros n ty p enc ser Hn.
    destruct (load_config_effect P n ty p enc ser w) as (_ & _ & Hreg).
    unfold keys_ok in *.
    destruct Hreg as [-> | (c & -> & _)]; [done|]. by apply KeyFacts.keys_ok_setitem. }
  split; [|split; [|split]].
  - intros config_name ty p enc ser.
    destruct (Registry.lookup (get_effective_config_name config_name) (_instances w))
      as [c|] eqn:Hl.
    + by rewrite (get_config_hit P _ ty p enc ser w c Hl).
    + rewrite (get_config_outcome P _ ty p enc ser w Hl).
      apply Hload, get_effective_config_name_idempotent_aux.
  - intros config_name.
    destruct (Registry.lookup (get_effective_config_name config_name) (_instances w))
      as [c|] eqn:Hl.
    + rewrite (reload_config_outcome P _ w c Hl).
      apply Hload, get_effective_config_name_idempotent_aux.
    + unfold reload_config, bind, gets. by rewrite Hl.
  - intros config_name.
    destruct (close_config_removes config_name w) as (w' & -> & Hreg & _).
    unfold keys_ok in *. simpl. rewrite Hreg. by apply KeyFacts.keys_ok_delitem.
  - unfold save, bind, gets.
    destruct (for_each_save_frame P (Registry.values (_instances w)) w) as (Hreg & _).
    destruct (for_each _ _ w); simpl in *; unfold keys_ok; by rewrite Hreg.
Qed.

Lemma keys_ok_preserved_witness :
  (forall config_name ty p enc ser,
      keys_ok (world_of (get_config example_platform config_name ty p enc ser mixed_world))) /\
  (forall config_name, keys_ok (world_of (reload_config example_platform config_name mixed_world))) /\
  (forall config_name, keys_ok (world_of (close_config_without_save config_name mixed_world))) /\
  keys_ok (world_of (save example_platform mixed_world)).
Proof.
  apply (keys_ok_preserved example_platform mixed_world).
  split.
  - apply (bool_decide_unpack _). reflexivity.
  - repeat constructor.
Defined.

(** X10. [reload_config] keeps the registered names and their order,
    whatever its outcome; a [get_config] that returns leaves them as they
    were when the name was registered, and otherwise has added the
    normalized name after all the others. *)
Theorem registered_names_order (P : Platform) (config_name : string) (w : World) :
  map fst (_instances (world_of (reload_config P config_name w))) = map fst (_instances w) /\
  (forall ty p enc ser l w',
      get_config P config_name ty p enc ser w = Ok l w' ->
      map fst (_instances w')
      = match Registry.lookup (get_effective_config_name config_name) (_instances w) with
        | Some _ => map fst (_instances w)
        | None => map fst (_instances w) ++ [get_effective_config_name config_name]
        end).
Proof.
  destruct (Registry.lookup (get_effective_config_name config_name) (_instances w)) as [c|] eqn:Hl.
  - split.
    + rewrite (reload_config_outcome P _ w c Hl).
      destruct (load_config_effect P (get_effective_config_name config_name) (type_ c)
                  (path c) (is_encoded c) (serializable c) w) as (_ & _ & [-> | (c' & -> & _)]);
        [done|].
      by rewrite KeyFacts.keys_setitem, Hl.
    + intros ty p enc ser l w'. rewrite (get_config_hit P _ ty p enc ser w c Hl).
      by intros [= _ <-].
  - split.
    + unfold reload_config, bind, gets. by rewrite Hl.
    + intros ty p enc ser l w' Hrun.
      rewrite (get_config_outcome P _ ty p enc ser w Hl) in Hrun.
      pose proof (load_config_outcome P (get_effective_config_name config_name)
                    ty p enc ser w) as Hout.
      rewrite Hrun in Hout. destruct Hout as (c & -> & _).
      by rewrite KeyFacts.keys_setitem, Hl.
Qed.

Module RecordFacts.
Import Registry.

Lemma setitem_Forall (Q : string * _Configuration -> Prop) k c d :
  Q (k, c) -> Forall Q d -> Forall Q (setitem k c d).
Proof.
  intros Hq. induction d as [|[k' c'] d IH]; simpl; intros Hd.
  - by repeat constructor.
  - apply Forall_cons in Hd as [Hk Hd].
    destruct (decide (k' = k)) as [->|Hne]; constructor; auto.
Qed.

Lemma delitem_Forall (Q : string * _Configuration -> Prop) k d :
  Forall Q d -> Forall Q (delitem k d).
Proof.
  induction d as [|[k' c'] d IH]; simpl; intros Hd; [done|].
  apply Forall_cons in Hd as [Hk Hd].
  destruct (decide (k' = k)); [|constructor]; auto.
Qed.

Lemma lookup_elem k c (d : list (string * _Configuration)) :
  lookup k d = Some c -> (k, c) ∈ d.
Proof.
  induction d as [|[k' c'] d IH]; simpl; [done|].
  destruct (decide (k' = k)) as [->|Hne].
  - intros [= ->]. left.
  - intros H. right. by apply IH.
Qed.

End RecordFacts.

(** X11. In every state reached from one where it holds, each serializable
    record carries a path resolved for the name it is registered under (so
    the path ends with [<name>.ecfg], and [save] never meets a missing
    path), and each registered class can be built without arguments:
    [get_config], [reload_config], [close_config_without_save] and [save]
    keep this, whatever their outcome. *)
Theorem records_ok_preserved (P : Platform) (w : World) :
  records_ok P w ->
  (forall config_name ty p enc ser,
      records_ok P (world_of (get_config P config_name ty p enc ser w))) /\
  (forall config_name, records_ok P (world_of (reload_config P config_name w))) /\
  (forall config_name, records_ok P (world_of (close_config_without_save config_name w))) /\
  records_ok P (world_of (save P w)) /\
  (forall k c, Registry.lookup k (_instances w) = Some c -> serializable c = true ->
               exists prefix, path c = Some (prefix +:+ file_name k)).
Proof.
  intros Hok.
  assert (forall n ty p enc ser,
             records_ok P (world_of (_load_config P n ty p enc ser w))) as Hload.
  { intros n ty p enc ser.
    pose proof (load_config_outcome P n ty p enc ser w) as Hout.
    destruct (_load_config P n ty p enc ser w) as [l w'|e w']; simpl;
      unfold records_ok in *.
    - destruct Hout as (c & -> & _ & <- & <- & Hpath & Hnew & _).
      apply RecordFacts.setitem_Forall; [|done]. simpl. split; [|done].
      intros Hser. exists p. by apply Hpath.
    - by rewrite Hout. }
  split; [|split; [|split; [|split]]].
  - intros config_name ty p enc ser.
    destruct (Registry.lookup (get_effective_config_name config_name) (_instances w))
      as [c|] eqn:Hl.
    + by rewrite (get_config_hit P _ ty p enc ser w c Hl).
    + rewrite (get_config_outcome P _ ty p enc ser w Hl). apply Hload.
  - intros config_name.
    destruct (Registry.lookup (get_effective_config_name config_name) (_instances w))
      as [c|] eqn:Hl.
    + rewrite (reload_config_outcome P _ w c Hl). apply Hload.
    + unfold reload_config, bind, gets. by rewrite Hl.
  - intros config_name.
    destruct (close_config_removes config_name w) as (w' & -> & Hreg & _).
    unfold records_ok in *. simpl. rewrite Hreg. by apply RecordFacts.delitem_Forall.
  - unfold save, bind, gets.
    destruct (for_each_save_frame P (Registry.values (_instances w)) w) as (Hreg & _).
    destruct (for_each _ _ w); simpl in *; unfold records_ok; by rewrite Hreg.
  - intros k c Hl Hser.
    apply RecordFacts.lookup_elem in Hl.
    destruct (proj1 (Forall_forall _ _) Hok _ Hl) as [Hpath _]. simpl in Hpath.
    destruct (Hpath Hser) as [dir ->].
    destruct (full_path_suffix P k dir) as [prefix ->]. eauto.
Qed.

Lemma records_ok_preserved_witness :
  (forall config_name ty p enc ser,
      records_ok example_platform
        (world_of (get_config example_platform config_name ty p enc ser mixed_world))) /\
  (forall config_name,
      records_ok example_platform (world_of (reload_config example_platform config_name mixed_world))) /\
  (forall config_name,
      records_ok example_platform (world_of (close_config_without_save config_name mixed_world))) /\
  records_ok example_platform (world_of (save example_platform mixed_world)) /\
  (forall k c, Registry.lookup k (_instances mixed_world) = Some c -> serializable c = true ->
               exists prefix, path c = Some (prefix +:+ file_name k)).
Proof.
  apply (records_ok_preserved example_platform mixed_world).
  unfold records_ok, mixed_world. simpl.
  constructor; [split; [by exists (Some "/tmp") | by eexists]|].
  constructor; [split; [intros Hs; discriminate Hs | by eexists]|].
  constructor; [split; [by exists (Some "/tmp") | by eexists]|].
  constructor.
Defined.

(** X12. Closing a configuration and asking for it again gives a new
    instance: the address returned after the close differs from the one
    returned before it, and the old object is left as it was. *)
Theorem close_then_get_config_is_new (P : Platform) (config_name : string)
    (ty ty' : ConfigType) (p p' : option string) (enc ser enc' ser' : bool)
    (w w1 w2 w3 : World) (l l' : loc) :
  wf_world w ->
  get_config P config_name ty p enc ser w = Ok l w1 ->
  close_config_without_save config_name w1 = Ok tt w2 ->
  get_config P config_name ty' p' enc' ser' w2 = Ok l' w3 ->
  l' <> l /\ heap w3 !! l = heap w1 !! l.
Proof.
  intros Hwf Hget Hclose Hget'.
  assert (l < length (heap w1)) as Hlt.
  { pose proof (proj2 (get_config_effect P config_name ty p enc ser w) Hwf) as Hwf1.
    rewrite Hget in Hwf1. simpl in Hwf1.
    apply get_config_returns in Hget as (c & Hl & <-).
    apply RecordFacts.lookup_elem in Hl.
    apply (proj1 (Forall_forall _ _) Hwf1 _ Hl). }
  destruct (close_config_removes config_name w1) as (w2' & Hclose' & Hreg & Hheap & _).
  rewrite Hclose in Hclose'. injection Hclose' as <-.
  assert (Registry.lookup (get_effective_config_name config_name) (_instances w2) = None) as Hnone
    by (rewrite Hreg; apply RegistryFacts.lookup_delitem_eq).
  rewrite (get_config_outcome P _ ty' p' enc' ser' w2 Hnone) in Hget'.
  pose proof (load_config_outcome P (get_effective_config_name config_name)
                ty' p' enc' ser' w2) as Hout.
  pose proof (load_config_effect P (get_effective_config_name config_name)
                ty' p' enc' ser' w2) as (_ & [extra Hext] & _).
  rewrite Hget' in Hout, Hext. simpl in Hext.
  destruct Hout as (c & _ & <- & _ & _ & _ & _ & Hrange & _).
  rewrite Hheap in Hrange. split; [lia|].
  rewrite Hext, Hheap. by apply lookup_app_l.
Qed.

Lemma close_then_get_config_is_new_witness :
  1 <> 0 /\
  heap (world_of (get_config example_platform "app" DictConfig None false true
                    (world_of (close_config_without_save "app"
                       (world_of (get_config example_platform "app" DictConfig None false true
                                    empty_world)))))) !! 0
  = heap (world_of (get_config example_platform "app" DictConfig None false true empty_world)) !! 0.
Proof.
  apply (close_then_get_config_is_new example_platform "app" DictConfig DictConfig None None
           false true false true empty_world
           (world_of (get_config example_platform "app" DictConfig None false true empty_world))
           (world_of (close_config_without_save "app"
              (world_of (get_config example_platform "app" DictConfig None false true
                           empty_world)))));
    [constructor | reflexivity | reflexivity | reflexivity].
Defined.

(** X13. Once a configuration is closed, [reload_config] refuses it: the
    close always returns, and a reload of the same name right after it
    raises the "not loaded" exception without changing anything. *)
Theorem close_then_reload_not_loaded (P : Platform) (config_name : string) (w : World) :
  exists w',
    close_config_without_save config_name w = Ok tt w' /\
    reload_config P config_name w'
    = Raise (not_loaded (get_effective_config_name config_name)) w'.
Proof.
  destruct (close_config_removes config_name w) as (w' & Hclose & Hreg & _).
  exists w'. split; [done|].
  unfold reload_config, bind, gets.
  by rewrite Hreg, RegistryFacts.lookup_delitem_eq.
Qed.

(** ** More on [save] *)

Section SaveMore.

Variable P : Platform.

(** The file at a path after the loop: the image of the last serializable
    record stored there, else what was there before. *)
Lemma fold_persist_lookup h cs fs p :
  fold_left (persist P h) cs fs !! p
  = match last_image P h cs p with Some image => Some image | None => fs !! p end.
Proof.
  revert fs. induction cs as [|c cs IH]; intros fs; simpl; [done|].
  rewrite IH. destruct (last_image P h cs p); [done|].
  unfold persist. destruct (serializable c); [|done].
  destruct (path c) as [q|]; [|done].
  destruct (file_image P h c) as [image|]; [|done].
  destruct (decide (q = p)) as [->|Hne].
  - apply lookup_insert_eq.
  - by apply lookup_insert_ne.
Qed.

Lemma fold_persist_twice h cs fs :
  fold_left (persist P h) cs (fold_left (persist P h) cs fs) = fold_left (persist P h) cs fs.
Proof.
  apply map_eq. intros p. rewrite !fold_persist_lookup.
  by destruct (last_image P h cs p).
Qed.

Lemma for_each_app (cs1 cs2 : list _Configuration) w :
  for_each (_save_config P) (cs1 ++ cs2) w
  = match for_each (_save_config P) cs1 w with
    | Ok _ w1 => for_each (_save_config P) cs2 w1
    | Raise e w1 => Raise e w1
    end.
Proof.
  revert w. induction cs1 as [|c cs1 IH]; intros w; [done|].
  simpl app. rewrite !for_each_cons.
  destruct (_save_config P c w); [apply IH | done].
Qed.

(** The loop over the records before a failing one has written them all;
    the failing record decides the exception and the state. *)
Lemma for_each_save_until cs1 c cs2 w :
  Forall (savable P (heap w)) cs1 ->
  for_each (_save_config P) (cs1 ++ c :: cs2) w
  = match _save_config P c (with_files (fun fs => fold_left (persist P (heap w)) cs1 fs) w) with
    | Ok _ w1 => for_each (_save_config P) cs2 w1
    | Raise e w1 => Raise e w1
    end.
Proof.
  intros Hall. by rewrite for_each_app, (for_each_save_savable P cs1 w Hall), for_each_cons.
Qed.

End SaveMore.

(** X14. [save] is idempotent: when it returns, a second [save] right after
    it returns too and changes nothing. *)
Theorem save_idempotent (P : Platform) (w : World) (u : unit) (w' : World) :
  save P w = Ok u w' -> save P w' = Ok tt w'.
Proof.
  unfold save, bind, gets. intros Hrun.
  destruct (for_each (_save_config P) (Registry.values (_instances w)) w) as [u1 w1|] eqn:Hloop;
    [|discriminate].
  injection Hrun as _ <-.
  apply for_each_save_Ok_inv in Hloop as [-> Hall].
  change (_instances (with_files _ w)) with (_instances w).
  rewrite (for_each_save_savable P (Registry.values (_instances w)) (with_files _ w) Hall).
  unfold with_files. simpl. by rewrite fold_persist_twice.
Qed.

Lemma save_idempotent_witness :
  save example_platform (world_of (save example_platform mixed_world))
  = Ok tt (world_of (save example_platform mixed_world)).
Proof.
  apply (save_idempotent example_platform mixed_world tt). reflexivity.
Defined.

(** X15. [save] stops at the first file it may not open: the records before
    the refused one have been written, the refused record's file and those of
    all later records are as before, and [OSError] leaves the call. *)
Theorem save_stops_at_refused_write (P : Platform) (w : World)
    (cs1 cs2 : list _Configuration) (c : _Configuration) (p : string) :
  Registry.values (_instances w) = cs1 ++ c :: cs2 ->
  Forall (savable P (heap w)) cs1 ->
  serializable c = true ->
  path c = Some p ->
  can_write P p = false ->
  save P w
  = Raise OSError
      {| _instances := _instances w; heap := heap w;
         files := fold_left (persist P (heap w)) cs1 (files w) |}.
Proof.
  intros Hvalues Hall Hser Hpath Hw.
  unfold save, bind, gets. rewrite Hvalues, (for_each_save_until P cs1 c cs2 w Hall).
  unfold _save_config, open_write. rewrite Hser, Hpath. run.
  destruct (is_encoded c); by rewrite Hw.
Qed.

Lemma save_stops_at_refused_write_witness :
  save strict_platform mixed_world
  = Raise OSError
      {| _instances := _instances mixed_world; heap := heap mixed_world;
         files := {[ "/tmp/x.ecfg" := "{}" ]} |}.
Proof.
  apply (save_stops_at_refused_write strict_platform mixed_world
           [ {| config := 0; is_encoded := false; type_ := DictConfig;
                path := Some "/tmp/x.ecfg"; serializable := true |};
             {| config := 1; is_encoded := true; type_ := DictConfig;
                path := Some "/tmp"; serializable := false |} ]
           []
           {| config := 2; is_encoded := true; type_ := DictConfig;
              path := Some "/tmp/z.ecfg"; serializable := true |}
           "/tmp/z.ecfg"); try reflexivity.
  constructor.
  - intros _. exists "/tmp/x.ecfg". split; [reflexivity|]. split; [reflexivity|]. by eexists.
  - constructor; [|constructor]. intros Hs. discriminate Hs.
Defined.

(** X16. The file is opened, and so emptied, before the instance is
    serialized: when [dumps] refuses the instance of a serializable record
    whose path may be written, [save] raises the encoder's exception and
    leaves an empty file at that path, whatever it held before. *)
Theorem save_truncates_before_dumps (P : Platform) (w : World)
    (cs1 cs2 : list _Configuration) (c : _Configuration) (p : string) :
  Registry.values (_instances w) = cs1 ++ c :: cs2 ->
  Forall (savable P (heap w)) cs1 ->
  serializable c = true ->
  path c = Some p ->
  can_write P p = true ->
  dumps P (to_json (default (DictObj []) (heap w !! config c))) = None ->
  save P w
  = Raise JSONEncodeError
      {| _instances := _instances w; heap := heap w;
         files := <[p := EmptyString]> (fold_left (persist P (heap w)) cs1 (files w)) |}.
Proof.
  intros Hvalues Hall Hser Hpath Hw Hdumps.
  unfold save, bind, gets. rewrite Hvalues, (for_each_save_until P cs1 c cs2 w Hall).
  unfold _save_config, open_write. rewrite Hser, Hpath. run.
  destruct (is_encoded c); rewrite Hw; run; by rewrite Hdumps.
Qed.

Lemma save_truncates_before_dumps_witness :
  save strict_platform loaded_world
  = Raise JSONEncodeError
      {| _instances := _instances loaded_world; heap := heap loaded_world;
         files := {[ "/tmp/x.ecfg" := EmptyString ]} |}.
Proof.
  apply (save_truncates_before_dumps strict_platform loaded_world [] []
           {| config := 1; is_encoded := false; type_ := DictConfig;
              path := Some "/tmp/x.ecfg"; serializable := true |}
           "/tmp/x.ecfg"); try reflexivity.
  constructor.
Defined.

(** ** What [save] wrote, [get_config] reads *)

Section ReadBack.

Variable P : Platform.

(** The branch of a serializable configuration whose file is there and
    decodes: the instance built by [from_json] is registered, after the
    throw-away instance that [from_json] was called on. *)
Lemma load_existing_file n ty p enc w content o0 data o :
  files w !! get_full_config_path P n p = Some content ->
  can_read P (get_full_config_path P n p) = true ->
  new ty = inr o0 ->
  file_parse P enc content = Some data ->
  from_json ty data = inr o ->
  _load_config P n ty p enc true w
  = Ok (length (heap w ++ [o0]))
       {| _instances :=
            Registry.setitem n
              {| config := length (heap w ++ [o0]); is_encoded := enc; type_ := ty;
                 path := Some (get_full_config_path P n p); serializable := true |}
              (_instances w);
          heap := (heap w ++ [o0]) ++ [o];
          files := files w |}.
Proof.
  intros Hfile Hread Hnew Hparse Hfrom.
  unfold _load_config, open_read, file_parse in *. rewrite Hread.
  destruct enc; run;
    repeat (first [ rewrite Hfile | rewrite Hnew
                  | rewrite bool_decide_eq_true_2 by eauto ]; run).
  - destruct (b85decode P content) as [bytes|]; [|done]. run.
    destruct (decode P bytes) as [text|]; [|done]. run.
    rewrite Hparse. run. rewrite Hfrom. run.
    by rewrite RegistryFacts.lookup_setitem_eq.
  - destruct (decode P content) as [text|]; [|done]. run.
    rewrite Hparse. run. rewrite Hfrom. run.
    by rewrite RegistryFacts.lookup_setitem_eq.
Qed.

Lemma lookup_values k c (d : list (string * _Configuration)) :
  Registry.lookup k d = Some c -> c ∈ Registry.values d.
Proof.
  intros H. apply RecordFacts.lookup_elem in H.
  apply list_elem_of_fmap. by exists (k, c).
Qed.

Lemma values_setitem_new k c (d : list (string * _Configuration)) :
  Registry.lookup k d = None -> Registry.values (Registry.setitem k c d) = Registry.values d ++ [c].
Proof.
  unfold Registry.values. induction d as [|[k' c'] d IH]; simpl; [done|].
  destruct (decide (k' = k)); [done|]. intros H. simpl. by rewrite IH.
Qed.

End ReadBack.

(** X17. What [save] wrote, a later [get_config] reads back. For a
    serializable record registered with the path resolved from [dir], holding
    the object [o], sharing its path with no other serializable record: when
    [save] returns, the file may be read, and the codecs turn the written
    image back into [to_json(o)], then after
    [close_config_without_save] a [get_config] with the same name, class,
    directory and encoding flag returns an instance holding
    [from_json(to_json(o))], and changes no file. *)
Theorem save_close_get_config_reads_back (P : Platform) (config_name : string)
    (dir : option string) (w w1 : World) (c : _Configuration) (o o0 o' : Obj) :
  Registry.lookup (get_effective_config_name config_name) (_instances w) = Some c ->
  serializable c = true ->
  path c = Some (get_full_config_path P (get_effective_config_name config_name) dir) ->
  (forall c', c' ∈ Registry.values (_instances w) ->
              serializable c' = true -> path c' = path c -> c' = c) ->
  heap w !! config c = Some o ->
  save P w = Ok tt w1 ->
  can_read P (get_full_config_path P (get_effective_config_name config_name) dir) = true ->
  (forall image, file_image P (heap w) c = Some image ->
                 file_parse P (is_encoded c) image = Some (to_json o)) ->
  new (type_ c) = inr o0 ->
  from_json (type_ c) (to_json o) = inr o' ->
  exists w2 l w3,
    close_config_without_save config_name w1 = Ok tt w2 /\
    get_config P config_name (type_ c) dir (is_encoded c) true w2 = Ok l w3 /\
    heap w3 !! l = Some o' /\
    files w3 = files w1.
Proof.
  intros Hl Hser Hpath Huniq Hobj Hsave Hread Hcodec Hnew Hfrom.
  set (k := get_effective_config_name config_name) in *.
  unfold save, bind, gets in Hsave.
  destruct (for_each (_save_config P) (Registry.values (_instances w)) w) as [u w1'|] eqn:Hloop;
    [|discriminate].
  injection Hsave as _ <-.
  apply for_each_save_Ok_inv in Hloop as [-> Hall].
  pose proof (lookup_values k c _ Hl) as Hin.
  destruct (proj1 (Forall_forall _ _) Hall c Hin Hser) as (q & Hq & _ & [image Himage]).
  assert (q = get_full_config_path P k dir) as -> by congruence.
  assert (fold_left (persist P (heap w)) (Registry.values (_instances w)) (files w)
            !! get_full_config_path P k dir = Some image) as Hfile.
  { apply (fold_persist_own_path P (heap w) _ c); auto.
    intros c' Hc' Hs' Hp'. apply Huniq; congruence. }
  destruct (close_config_removes config_name
              (with_files (fun fs => fold_left (persist P (heap w))
                                       (Registry.values (_instances w)) fs) w))
    as (w2 & Hclose & Hreg & Hheap & Hfiles & _).
  exists w2. fold k in Hreg.
  assert (Registry.lookup k (_instances w2) = None) as Hnone
    by (rewrite Hreg; apply RegistryFacts.lookup_delitem_eq).
  eexists _, _. split; [exact Hclose|]. split.
  - unfold get_config, bind at 1, gets. fold k. rewrite Hnone.
    apply (load_existing_file P k (type_ c) dir (is_encoded c) w2 image o0 (to_json o) o');
      auto.
    rewrite Hfiles. exact Hfile.
  - simpl. split; [|by rewrite Hfiles].
    rewrite lookup_app_r by done. by rewrite Nat.sub_diag.
Qed.

Lemma save_close_get_config_reads_back_witness :
  exists w2 l w3,
    close_config_without_save " X " (world_of (save example_platform mixed_world)) = Ok tt w2 /\
    get_config example_platform " X " DictConfig (Some "/tmp") false true w2 = Ok l w3 /\
    heap w3 !! l = Some (DictObj []) /\
    files w3 = files (world_of (save example_platform mixed_world)).
Proof.
  apply (save_close_get_config_reads_back example_platform " X " (Some "/tmp") mixed_world
           (world_of (save example_platform mixed_world))
           {| config := 0; is_encoded := false; type_ := DictConfig;
              path := Some "/tmp/x.ecfg"; serializable := true |}
           (DictObj []) (DictObj []) (DictObj [])); try reflexivity.
  intros c' Hin Hs Hp.
  repeat (apply elem_of_cons in Hin as [->|Hin]; [done || discriminate|]).
  by apply elem_of_nil in Hin.
Defined.

(** X18. A configuration first obtained with no file on disk gets its file
    at the next [save], not before: after [get_config] the resolved path
    still names no file, and when [save] then returns, the file holds the
    image of the default instance (its JSON text, wrapped in base85 exactly
    when the caller asked for encoding), provided no serializable record
    registered earlier uses that path. *)
Theorem get_config_then_save_creates_file (P : Platform) (config_name : string)
    (ty : ConfigType) (dir : option string) (enc : bool) (w w2 : World) (o : Obj) :
  Registry.lookup (get_effective_config_name config_name) (_instances w) = None ->
  files w !! get_full_config_path P (get_effective_config_name config_name) dir = None ->
  new ty = inr o ->
  (forall c', c' ∈ Registry.values (_instances w) -> serializable c' = true ->
              path c' <> Some (get_full_config_path P (get_effective_config_name config_name) dir)) ->
  save P (world_of (get_config P config_name ty dir enc true w)) = Ok tt w2 ->
  files (world_of (get_config P config_name ty dir enc true w))
    !! get_full_config_path P (get_effective_config_name config_name) dir = None /\
  exists bytes image,
    dumps P (to_json o) = Some bytes /\
    (enc = true -> image = b85encode P bytes) /\
    (enc = false -> exists text, decode P bytes = Some text /\ image = encode P text) /\
    files w2 !! get_full_config_path P (get_effective_config_name config_name) dir = Some image.
Proof.
  intros Hl Hfile Hnew Hfree Hsave.
  set (k := get_effective_config_name config_name) in *.
  set (full := get_full_config_path P k dir) in *.
  rewrite (get_config_outcome P config_name ty dir enc true w Hl) in *. fold k in Hsave |- *.
  rewrite (load_missing_file P k ty dir enc w o Hfile Hnew) in *. fold full in Hsave |- *.
  simpl world_of in *. split; [done|].
  set (rec := {| config := length (heap w); is_encoded := enc; type_ := ty;
                 path := Some full; serializable := true |}) in *.
  unfold save, bind, gets in Hsave. cbv beta iota in Hsave. simpl _instances in Hsave.
  rewrite (values_setitem_new k rec (_instances w) Hl) in Hsave.
  apply for_each_save_Ok_inv in Hsave as [-> Hall]. simpl in Hall |- *.
  assert (rec ∈ Registry.values (_instances w) ++ [rec]) as Hin by (apply elem_of_app; right; left).
  destruct (proj1 (Forall_forall _ _) Hall rec Hin eq_refl) as (q & Hq & _ & [image Himage]).
  assert (fold_left (persist P (heap w ++ [o])) (Registry.values (_instances w) ++ [rec]) (files w)
            !! full = Some image) as Hwritten.
  { apply (fold_persist_own_path P (heap w ++ [o]) _ rec); auto.
    intros c' Hc' Hs' Hp'. apply elem_of_app in Hc' as [Hc'|Hc'].
    - by destruct (Hfree c' Hc' Hs').
    - by apply list_elem_of_singleton in Hc'. }
  unfold file_image in Himage. simpl in Himage.
  rewrite lookup_app_r, Nat.sub_diag in Himage by done. simpl in Himage.
  destruct (dumps P (to_json o)) as [bytes|]; [|discriminate].
  exists bytes, image. split; [done|].
  destruct enc.
  - split; [intros _; congruence|]. split; [done | exact Hwritten].
  - split; [done|]. split; [|exact Hwritten].
    intros _. destruct (decode P bytes) as [text|]; [|discriminate].
    exists text. split; [done | congruence].
Qed.

Lemma get_config_then_save_creates_file_witness :
  files (world_of (get_config example_platform "App" DictConfig None true true empty_world))
    !! "/home/u/.empire/app.ecfg" = None /\
  exists bytes image,
    dumps example_platform (to_json (DictObj [])) = Some bytes /\
    (true = true -> image = b85encode example_platform bytes) /\
    (true = false ->
     exists text, decode example_platform bytes = Some text /\ image = encode example_platform text) /\
    files (world_of (save example_platform
                       (world_of (get_config example_platform "App" DictConfig None true true
                                    empty_world))))
      !! "/home/u/.empire/app.ecfg" = Some image.
Proof.
  apply (get_config_then_save_creates_file example_platform "App" DictConfig None true
           empty_world
           (world_of (save example_platform
                        (world_of (get_config example_platform "App" DictConfig None true true
                                     empty_world))))
           (DictObj [])); try reflexivity.
  intros c' Hin. by apply elem_of_nil in Hin.
Defined.

(** ** Corners of loading *)






(** X20. For a name that starts with the separator the stored path is
    already the whole answer of the resolution, so [reload_config] looks at
    the very path the record stores: when it returns, the new record has the
    path of the previous one. *)
Theorem reload_config_absolute_name_keeps_path (P : Platform) (config_name : string)
    (dir : option string) (w : World) (c : _Configuration) (l : loc) (w' : World) :
  Registry.lookup (get_effective_config_name config_name) (_instances w) = Some c ->
  serializable c = true ->
  path c = Some (get_full_config_path P (get_effective_config_name config_name) dir) ->
  Str.startswith_sep (get_effective_config_name config_name) = true ->
  reload_config P config_name w = Ok l w' ->
  exists c',
    Registry.lookup (get_effective_config_name config_name) (_instances w') = Some c' /\
    config c' = l /\
    path c' = path c.
Proof.
  intros Hl Hser Hpath Habs Hrun.
  rewrite (reload_config_outcome P _ w c Hl), Hser in Hrun.
  apply load_serializable_returns in Hrun as (c' & Hl' & Hc & _ & Hp' & _).
  exists c'. split; [done|]. split; [done|].
  rewrite Hp', Hpath.
  assert (forall d, get_full_config_path P (get_effective_config_name config_name) d
                    = file_name (get_effective_config_name config_name)) as Hfull.
  { intros d.
    assert (Str.startswith_sep (file_name (get_effective_config_name config_name)) = true)
      as Hfile by (destruct (get_effective_config_name config_name); done).
    unfold get_full_config_path, Str.join.
    destruct d as [[|x d]|]; simpl; unfold Str.join_step at 1; by rewrite Hfile. }
  by rewrite !Hfull.
Qed.

Lemma reload_config_absolute_name_keeps_path_witness :
  exists c',
    Registry.lookup "/srv/app"
      (_instances (world_of (reload_config example_platform "/srv/app"
         (world_of (get_config example_platform "/srv/app" DictConfig (Some "/tmp") false true
                      empty_world))))) = Some c' /\
    config c' = 1 /\
    path c' = Some "/srv/app.ecfg".
Proof.
  apply (reload_config_absolute_name_keeps_path example_platform "/srv/app" (Some "/tmp")
           (world_of (get_config example_platform "/srv/app" DictConfig (Some "/tmp") false true
                        empty_world))
           {| config := 0; is_encoded := false; type_ := DictConfig;
              path := Some "/srv/app.ecfg"; serializable := true |}); reflexivity.
Defined.
